(** * Survey-data cleaning pipeline: a shallow embedding of [processing.py]
      and of the analysis handler of [app.py].

    The four stages ([impute_missing_values], [handle_outliers],
    [apply_rules], [calculate_estimates]) are transcribed as functions over
    a small model of the pandas objects they manipulate.

    Modelling conventions.
    - A numeric cell is [option R]: [None] is NaN (pandas' missing value),
      [Some x] a number.  The number type [R] is a parameter with the
      arithmetic the code uses ([Num]); it is instantiated twice: by exact
      rationals kept in lowest terms ([Exact]) and by IEEE-754 binary64
      ([Binary64], the dtype pandas really uses).  Infinities and NaNs
      produced by binary64 overflow are outside the model.
    - A column is numeric ([NumCol], dtype float64) or not ([ObjCol], dtype
      object, cells being text, a number or missing).
    - A [DataFrame] is its row labels together with its named columns, in
      order.  Tables read by [read_csv]/[read_excel] have distinct column
      names, distinct row labels and columns of the length of the index:
      [wf_table].
    - Python exceptions are the [Raise] results of the [result] type.
    - [df.copy()] is the identity: values are immutable here.
    - The k-nearest-neighbour imputer of scikit-learn is a parameter
      ([knn_fit_transform]): nothing is assumed about what it returns. *)

From Stdlib Require Import String Ascii List Bool Arith ZArith Lia.
From Stdlib Require Import QArith Qreduction Qabs Lqa.
From Stdlib Require Import DecimalString Sorted.
From Stdlib Require Import Floats Uint63.
Import ListNotations.
Local Close Scope Q_scope.
Local Open Scope nat_scope.
Local Open Scope string_scope.
Local Open Scope list_scope.

(* ================================================================== *)
(** ** Python values: exceptions, results, text *)

Module Py.

Inductive exn := KeyError | ValueError | TypeError | ZeroDivisionError.

Inductive result (A : Type) :=
| Ok (a : A)
| Raise (e : exn).
Arguments Ok {A} a.
Arguments Raise {A} e.

Definition bind {A B} (r : result A) (k : A -> result B) : result B :=
  match r with
  | Ok a => k a
  | Raise e => Raise e
  end.

(** [str(n)] for a non-negative int. *)
Definition str_nat (n : nat) : string := NilEmpty.string_of_uint (Nat.to_uint n).

Definition newline : string := String (ascii_of_nat 10) EmptyString.

(** ["sep".join(parts)] *)
Definition join (sep : string) (parts : list string) : string :=
  String.concat sep parts.

Fixpoint str_contains (c : ascii) (s : string) : bool :=
  match s with
  | EmptyString => false
  | String d s' => Ascii.eqb c d || str_contains c s'
  end.

Fixpoint escape (q : ascii) (s : string) : string :=
  match s with
  | EmptyString => EmptyString
  | String c s' =>
      let rest := escape q s' in
      if Ascii.eqb c "\"%char then String "\"%char (String "\"%char rest)
      else if Ascii.eqb c q then String "\"%char (String q rest)
      else if Ascii.eqb c (ascii_of_nat 10) then String "\"%char (String "n"%char rest)
      else if Ascii.eqb c (ascii_of_nat 13) then String "\"%char (String "r"%char rest)
      else if Ascii.eqb c (ascii_of_nat 9) then String "\"%char (String "t"%char rest)
      else String c rest
  end.

(** [repr(s)] for a str of printable ASCII: single quotes, unless the text
    holds a single quote and no double quote. *)
Definition repr_str (s : string) : string :=
  let sq := "'"%char in
  let dq := ascii_of_nat 34 in
  let q := if str_contains sq s && negb (str_contains dq s) then dq else sq in
  String q (escape q s ++ String q EmptyString).

(** [repr(names)] for a list of str, as an f-string prints it. *)
Definition repr_list (names : list string) : string :=
  "[" ++ join ", " (map repr_str names) ++ "]".

End Py.
Import Py.

Notation "x <- e ;; k" := (bind e (fun x => k))
  (at level 61, e at next level, right associativity).

(* ================================================================== *)
(** ** Numbers *)

(** The arithmetic the pipeline performs on float64 data. *)
Class Num (R : Type) := {
  of_nat : nat -> R;            (* int -> float *)
  nadd : R -> R -> R;
  nsub : R -> R -> R;
  nmul : R -> R -> R;
  ndiv : R -> R -> R;
  nltb : R -> R -> bool;        (* x < y *)
  nleb : R -> R -> bool;        (* x <= y *)
  neqb : R -> R -> bool;        (* x == y *)
  fmt2f : R -> string           (* f"{x:.2f}" *)
}.

Definition pad2 (n : nat) : string :=
  if Nat.ltb n 10 then "0" ++ str_nat n else str_nat n.

(** Nearest integer, ties to even. *)
Definition round_half_even (q : Q) : Z :=
  let n := Qnum q in
  let d := Zpos (Qden q) in
  let fl := (n / d)%Z in
  let r2 := (2 * (n mod d))%Z in
  if (r2 <? d)%Z then fl
  else if (d <? r2)%Z then (fl + 1)%Z
  else if Z.even fl then fl else (fl + 1)%Z.

Definition fmt2f_Q (neg : bool) (q : Q) : string :=
  let c := Z.to_nat (round_half_even (Qabs q * 100)%Q) in
  (if neg then "-" else "") ++ str_nat (c / 100) ++ "." ++ pad2 (c mod 100).

(** Exact rationals; every result is put in lowest terms, so that equal
    numbers are equal terms. *)
Definition Qltb (x y : Q) : bool := negb (Qle_bool y x).

#[export] Instance Exact : Num Q := {
  of_nat n := inject_Z (Z.of_nat n);
  nadd x y := Qred (x + y);
  nsub x y := Qred (x - y);
  nmul x y := Qred (x * y);
  ndiv x y := Qred (x / y);
  nltb := Qltb;
  nleb := Qle_bool;
  neqb := Qeq_bool;
  fmt2f q := fmt2f_Q (Qltb q 0%Q) q
}.

(** The exact value of a finite binary64 number. *)
Definition SF2Q (f : spec_float) : Q :=
  match f with
  | S754_finite s m e =>
      let v := (inject_Z (Zpos m) * Qpower 2 e)%Q in
      if s then Qopp v else v
  | _ => 0%Q
  end.

Definition fmt2f_float (x : float) : string :=
  match Prim2SF x with
  | S754_nan => "nan"
  | S754_infinity s => if s then "-inf" else "inf"
  | S754_zero s => if s then "-0.00" else "0.00"
  | S754_finite s m e => fmt2f_Q s (SF2Q (S754_finite s m e))
  end.

(** IEEE-754 binary64, rounding to nearest even: numpy's float64. *)
#[export] Instance Binary64 : Num float := {
  of_nat n := PrimFloat.of_uint63 (Uint63.of_Z (Z.of_nat n));
  nadd := PrimFloat.add;
  nsub := PrimFloat.sub;
  nmul := PrimFloat.mul;
  ndiv := PrimFloat.div;
  nltb := PrimFloat.ltb;
  nleb := PrimFloat.leb;
  neqb := PrimFloat.eqb;
  fmt2f := fmt2f_float
}.

(* ================================================================== *)
(** ** pandas: cells, columns, tables *)

(** A cell of an object column: text, a number, or missing (None/NaN). *)
Inductive obj (R : Type) :=
| OStr (s : string)
| ONum (x : R)
| ONone.
Arguments OStr {R} s.
Arguments ONum {R} x.
Arguments ONone {R}.

(** A column (a Series without its index): float64 data, where [None] is
    NaN, or object data. *)
Inductive column (R : Type) :=
| NumCol (vals : list (option R))
| ObjCol (vals : list (obj R)).
Arguments NumCol {R} vals.
Arguments ObjCol {R} vals.

Record DataFrame (R : Type) := mkDataFrame {
  index : list nat;                        (* row labels *)
  columns : list (string * column R)       (* named columns, in order *)
}.
Arguments mkDataFrame {R} index columns.
Arguments index {R} d.
Arguments columns {R} d.

(** One row of the estimate table. *)
Record Estimate (R : Type) := mkEstimate {
  Variable_name : string;
  Unweighted_Mean : R;
  Weighted_Mean : R
}.
Arguments mkEstimate {R} Variable_name Unweighted_Mean Weighted_Mean.
Arguments Variable_name {R} e.
Arguments Unweighted_Mean {R} e.
Arguments Weighted_Mean {R} e.

Section Pandas.
Context {R : Type} {NumR : Num R}.

Definition col_length (c : column R) : nat :=
  match c with
  | NumCol vals => length vals
  | ObjCol vals => length vals
  end.

(** [pd.api.types.is_numeric_dtype(series)] *)
Definition is_numeric_dtype (c : column R) : bool :=
  match c with
  | NumCol _ => true
  | ObjCol _ => false
  end.

Definition column_names (df : DataFrame R) : list string :=
  map fst (columns df).

(** [name in df.columns] *)
Definition has_column (df : DataFrame R) (name : string) : bool :=
  existsb (String.eqb name) (column_names df).

Fixpoint assoc (name : string) (cols : list (string * column R))
  : option (column R) :=
  match cols with
  | [] => None
  | (n, c) :: rest => if String.eqb name n then Some c else assoc name rest
  end.

(** [df[name]] *)
Definition get_column (df : DataFrame R) (name : string) : option (column R) :=
  assoc name (columns df).

Fixpoint assoc_set (name : string) (c : column R)
  (cols : list (string * column R)) : list (string * column R) :=
  match cols with
  | [] => [(name, c)]
  | (n, c0) :: rest =>
      if String.eqb name n then (n, c) :: rest
      else (n, c0) :: assoc_set name c rest
  end.

(** [df[name] = c]: replaces the column in place, or appends it. *)
Definition set_column (df : DataFrame R) (name : string) (c : column R)
  : DataFrame R :=
  mkDataFrame (index df) (assoc_set name c (columns df)).

(** [df[names]] for a list of names: KeyError when a name is not a column. *)
Fixpoint getitem_list (df : DataFrame R) (names : list string)
  : result (list (string * column R)) :=
  match names with
  | [] => Ok []
  | n :: rest =>
      match get_column df n with
      | None => Raise KeyError
      | Some c => tl <- getitem_list df rest ;; Ok ((n, c) :: tl)
      end
  end.

(** [frame.select_dtypes(include=np.number).columns.tolist()] *)
Definition select_numeric (cols : list (string * column R)) : list string :=
  map fst (filter (fun nc => is_numeric_dtype (snd nc)) cols).

(** The values of a float64 column of the table, by name. *)
Definition values_of (df : DataFrame R) (name : string) : list (option R) :=
  match get_column df name with
  | Some (NumCol vals) => vals
  | _ => []
  end.

(** The float64 block [df[numeric_cols]], column by column. *)
Fixpoint numeric_block (df : DataFrame R) (names : list string)
  : list (list (option R)) :=
  match names with
  | [] => []
  | n :: rest =>
      match get_column df n with
      | Some (NumCol vals) => vals :: numeric_block df rest
      | _ => numeric_block df rest
      end
  end.

(** [df[names] = block] for a 2-D array given by its columns: ValueError
    unless there is one column of data per name, each with one value per
    row. *)
Fixpoint assign_columns (df : DataFrame R) (names : list string)
  (block : list (list (option R))) : DataFrame R :=
  match names, block with
  | n :: names', vals :: block' =>
      assign_columns (set_column df n (NumCol vals)) names' block'
  | _, _ => df
  end.

Definition setitem_block (df : DataFrame R) (names : list string)
  (block : list (list (option R))) : result (DataFrame R) :=
  if negb (Nat.eqb (length block) (length names)) then Raise ValueError
  else if negb (forallb (fun vals => Nat.eqb (length vals) (length (index df))) block)
  then Raise ValueError
  else Ok (assign_columns df names block).

(** The non-missing values of a float64 column, in row order. *)
Definition present (vals : list (option R)) : list R :=
  flat_map (fun v => match v with Some x => [x] | None => [] end) vals.

(** Arithmetic and comparisons with NaN: NaN propagates, and compares
    false. *)
Definition olift2 (f : R -> R -> R) (a b : option R) : option R :=
  match a, b with
  | Some x, Some y => Some (f x y)
  | _, _ => None
  end.

Definition olt (a b : option R) : bool :=
  match a, b with
  | Some x, Some y => nltb x y
  | _, _ => false
  end.

Definition ogt (a b : option R) : bool := olt b a.

(** [values.sum()], accumulated from the left. *)
Definition nsum (xs : list R) : R := fold_left nadd xs (of_nat 0).

(** [values.mean()] of a non-empty array. *)
Definition mean (xs : list R) : R := ndiv (nsum xs) (of_nat (length xs)).

Fixpoint insert_sorted (x : R) (l : list R) : list R :=
  match l with
  | [] => [x]
  | y :: l' => if nleb x y then x :: y :: l' else y :: insert_sorted x l'
  end.

(** [np.sort(values)] *)
Definition sort (l : list R) : list R := fold_right insert_sorted [] l.

(** [np.median(values)] of a non-empty array. *)
Definition median (xs : list R) : R :=
  let s := sort xs in
  let n := length s in
  let z := of_nat 0 in
  if Nat.odd n then nth (n / 2) s z
  else ndiv (nadd (nth (n / 2 - 1) s z) (nth (n / 2) s z)) (of_nat 2).

(** numpy's linear interpolation between two order statistics. *)
Definition lerp (a b t : R) : R :=
  let diff_b_a := nsub b a in
  if nleb (ndiv (of_nat 1) (of_nat 2)) t
  then nsub b (nmul diff_b_a (nsub (of_nat 1) t))
  else nadd a (nmul diff_b_a t).

(** [series.quantile(num/den)], linear interpolation, NaN skipped; NaN
    when nothing is left.  The virtual index [(n-1) * num/den] is split
    into its floor and its fractional part. *)
Definition quantile (num den : nat) (vals : list (option R)) : option R :=
  match sort (present vals) with
  | [] => None
  | (x :: _) as s =>
      let n := length s in
      let pos := (n - 1) * num in
      let lo := pos / den in
      let hi := Nat.min (lo + 1) (n - 1) in
      let gamma := ndiv (of_nat (pos mod den)) (of_nat den) in
      Some (lerp (nth lo s x) (nth hi s x) gamma)
  end.

End Pandas.

(* ================================================================== *)
(** ** scikit-learn: the imputers *)

Inductive strategy := strategy_mean | strategy_median.

Inductive imputer :=
| SimpleImputer (s : strategy)
| KNNImputer (n_neighbors : nat).

Section Processing.
Context {R : Type} {NumR : Num R}.

(** [KNNImputer(n_neighbors).fit_transform], on the block's columns. *)
Variable knn_fit_transform :
  nat -> list (list (option R)) -> result (list (list (option R))).

(** The mean or the median of a non-empty array of observed values. *)
Definition stat_value (s : strategy) (xs : list R) : R :=
  match s with
  | strategy_mean => mean xs
  | strategy_median => median xs
  end.

(** The statistic [SimpleImputer] fits for one column: taken over the
    non-missing values, NaN when there is none. *)
Definition statistic (s : strategy) (vals : list (option R)) : option R :=
  match present vals with
  | [] => None
  | xs => Some (stat_value s xs)
  end.

Definition fill (stat : R) (vals : list (option R)) : list (option R) :=
  map (fun v => match v with Some x => Some x | None => Some stat end) vals.

(** [SimpleImputer(strategy).fit_transform(X)]: an array without rows is
    rejected; a column without any observed value is dropped from the
    output; in the others each NaN becomes the column's statistic. *)
Definition simple_fit_transform (s : strategy) (n_samples : nat)
  (X : list (list (option R))) : result (list (list (option R))) :=
  if Nat.eqb n_samples 0 then Raise ValueError
  else Ok (flat_map (fun vals => match statistic s vals with
                                 | Some stat => [fill stat vals]
                                 | None => []
                                 end) X).

Definition fit_transform (imp : imputer) (n_samples : nat)
  (X : list (list (option R))) : result (list (list (option R))) :=
  match imp with
  | SimpleImputer s => simple_fit_transform s n_samples X
  | KNNImputer k => knn_fit_transform k X
  end.

(* ================================================================== *)
(** ** processing.py *)

Definition impute_missing_values (df : DataFrame R) (cols : list string)
  (method : string) : result (DataFrame R * string) :=
  let df_imputed := df in
  selected <- getitem_list df_imputed cols ;;
  let numeric_cols := select_numeric selected in
  match numeric_cols with
  | [] => Ok (df_imputed, "No numeric columns selected for imputation.")
  | _ :: _ =>
      let imputer :=
        if String.eqb method "Mean" then SimpleImputer strategy_mean
        else if String.eqb method "KNN" then KNNImputer 5
        else SimpleImputer strategy_median in
      block <- fit_transform imputer (length (index df_imputed))
                 (numeric_block df_imputed numeric_cols) ;;
      df_imputed' <- setitem_block df_imputed numeric_cols block ;;
      Ok (df_imputed',
          ("Imputed missing values in columns " ++ repr_list numeric_cols
           ++ " using " ++ method ++ ".")%string)
  end.

Definition ofmt2f (x : option R) : string :=
  match x with
  | Some v => fmt2f v
  | None => "nan"
  end.

(** The bounds [Q1 - 1.5*IQR] and [Q3 + 1.5*IQR] of a column; 1.5 is
    written 3/2, which is exact in both number types. *)
Definition iqr_bounds (vals : list (option R)) : option R * option R :=
  let Q1 := quantile 1 4 vals in
  let Q3 := quantile 3 4 vals in
  let IQR := olift2 nsub Q3 Q1 in
  let k := Some (ndiv (of_nat 3) (of_nat 2)) in
  (olift2 nsub Q1 (olift2 nmul k IQR), olift2 nadd Q3 (olift2 nmul k IQR)).

(** The row mask [(s < lower_bound) | (s > upper_bound)]. *)
Definition is_outlier (lower_bound upper_bound v : option R) : bool :=
  olt v lower_bound || ogt v upper_bound.

(** [np.where(s < lower_bound, lower_bound, s)] then
    [np.where(s > upper_bound, upper_bound, s)]. *)
Definition cap (lower_bound upper_bound : option R) (vals : list (option R))
  : list (option R) :=
  let vals1 := map (fun v => if olt v lower_bound then lower_bound else v) vals in
  map (fun v => if ogt v upper_bound then upper_bound else v) vals1.

(** The body of the loop of [handle_outliers] for one column name. *)
Definition handle_outliers_col (method : string)
  (st : DataFrame R * list string) (col : string) : DataFrame R * list string :=
  let (df_outliers_handled, log_messages) := st in
  match get_column df_outliers_handled col with
  | Some (NumCol vals) =>
      let (lower_bound, upper_bound) := iqr_bounds vals in
      let outliers := filter (is_outlier lower_bound upper_bound) vals in
      if negb (Nat.eqb (length outliers) 0) then
        (set_column df_outliers_handled col
           (NumCol (cap lower_bound upper_bound vals)),
         log_messages ++
         [("Found " ++ str_nat (length outliers) ++ " outlier(s) in '" ++ col
           ++ "' using " ++ method ++ ".")%string;
          ("Capped outliers in '" ++ col ++ "' at lower:" ++ ofmt2f lower_bound
           ++ " and upper:" ++ ofmt2f upper_bound ++ ".")%string])
      else
        (df_outliers_handled,
         log_messages ++
         [("No outliers detected in '" ++ col ++ "' using " ++ method
           ++ ".")%string])
  | _ => st
  end.

Definition handle_outliers (df : DataFrame R) (cols : list string)
  (method : string) : DataFrame R * string :=
  let df_outliers_handled := df in
  let valid_columns := filter (has_column df_outliers_handled) cols in
  let (df_outliers_handled', log_messages) :=
    fold_left (handle_outliers_col method) valid_columns
      (df_outliers_handled, []) in
  let log_messages' :=
    match log_messages with
    | [] => ["No numeric columns selected for outlier handling."]
    | _ :: _ => log_messages
    end in
  (df_outliers_handled', join newline log_messages').

(** [series < k] for an int [k]: on object data, text cannot be ordered
    against a number (TypeError); a missing cell compares false. *)
Fixpoint obj_lt_scalar (vals : list (obj R)) (k : R) : result (list bool) :=
  match vals with
  | [] => Ok []
  | c :: rest =>
      b <- match c with
           | OStr _ => Raise TypeError
           | ONum x => Ok (nltb x k)
           | ONone => Ok false
           end ;;
      bs <- obj_lt_scalar rest k ;;
      Ok (b :: bs)
  end.

Definition lt_scalar (c : column R) (k : R) : result (list bool) :=
  match c with
  | NumCol vals => Ok (map (fun v => olt v (Some k)) vals)
  | ObjCol vals => obj_lt_scalar vals k
  end.

(** [series == s] for a str [s]: false on anything that is not that text. *)
Definition eq_scalar_str (c : column R) (s : string) : list bool :=
  match c with
  | NumCol vals => map (fun _ => false) vals
  | ObjCol vals => map (fun c => match c with
                                 | OStr t => String.eqb t s
                                 | _ => false
                                 end) vals
  end.

(** [mask1 & mask2] *)
Definition mask_and (m1 m2 : list bool) : list bool :=
  map (fun p => fst p && snd p) (combine m1 m2).

(** [df[mask].index]: the labels of the rows the mask selects. *)
Definition index_where (labels : list nat) (mask : list bool) : list nat :=
  map fst (filter snd (combine labels mask)).

(** [df[name]]: KeyError when there is no such column. *)
Definition getitem (df : DataFrame R) (name : string) : result (column R) :=
  match get_column df name with
  | Some c => Ok c
  | None => Raise KeyError
  end.

Definition to_obj (v : option R) : obj R :=
  match v with
  | Some x => ONum x
  | None => ONone
  end.

(** The cells of a column, as objects. *)
Definition cells (c : column R) : list (obj R) :=
  match c with
  | NumCol vals => map to_obj vals
  | ObjCol vals => vals
  end.

(** [df.loc[labels, name] = s] for a str [s] and a non-empty list of
    labels: every row whose label is listed gets the text; a float64
    column becomes an object column, a new column is created with the
    other cells missing. *)
Definition loc_set_str (df : DataFrame R) (labels : list nat) (name : string)
  (s : string) : DataFrame R :=
  let old :=
    match get_column df name with
    | Some c => cells c
    | None => map (fun _ => ONone) (index df)
    end in
  set_column df name
    (ObjCol (map (fun p => if existsb (Nat.eqb (fst p)) labels
                           then OStr s else snd p)
                 (combine (index df) old))).

Definition apply_rules (df : DataFrame R) : result (DataFrame R * string) :=
  let df_validated := df in
  if has_column df_validated "Age"
     && has_column df_validated "Employment_Status" then
    age <- getitem df_validated "Age" ;;
    under_18 <- lt_scalar age (of_nat 18) ;;
    status <- getitem df_validated "Employment_Status" ;;
    let employed := eq_scalar_str status "Employed" in
    let violations_index :=
      index_where (index df_validated) (mask_and under_18 employed) in
    match violations_index with
    | _ :: _ =>
        Ok (loc_set_str df_validated violations_index "Employment_Status"
              "Unemployed",
            ("Found " ++ str_nat (length violations_index)
             ++ " rule violation(s): Age < 18 and Employed. Correcting status to 'Unemployed'.")%string)
    | [] => Ok (df_validated, "No rule violations found.")
    end
  else
    Ok (df_validated,
        "Could not apply age/employment rule: required columns not found.").

(** [df[[col, weight_column]].dropna()]: the rows where both the value and
    the weight are present. *)
Definition dropna_pairs (vals : list (option R)) (weights : list (obj R))
  : list (R * obj R) :=
  flat_map (fun p => match fst p, snd p with
                     | Some x, OStr s => [(x, OStr s)]
                     | Some x, ONum w => [(x, ONum w)]
                     | _, _ => []
                     end) (combine vals weights).

(** The weights as floats: text cannot be multiplied by a float.  (A
    missing weight does not reach this point: [dropna] removed its row.) *)
Fixpoint obj_to_floats (ws : list (obj R)) : result (list R) :=
  match ws with
  | [] => Ok []
  | OStr _ :: _ => Raise TypeError
  | ONone :: _ => Raise TypeError
  | ONum w :: rest => tl <- obj_to_floats rest ;; Ok (w :: tl)
  end.

(** [np.average(values, weights=weights)], both of the same length. *)
Definition np_average (values : list R) (weights : list (obj R)) : result R :=
  wgt <- obj_to_floats weights ;;
  let scl := nsum wgt in
  if neqb scl (of_nat 0) then Raise ZeroDivisionError
  else Ok (ndiv (nsum (map (fun p => nmul (fst p) (snd p))
                         (combine values wgt))) scl).

(** [summary[col] = record] on a dict, which keeps insertion order. *)
Fixpoint dict_set (col : string) (r : R * R) (summary : list (string * (R * R)))
  : list (string * (R * R)) :=
  match summary with
  | [] => [(col, r)]
  | (k, v) :: rest =>
      if String.eqb col k then (k, r) :: rest
      else (k, v) :: dict_set col r rest
  end.

(** [df[[col, weight_column]].dropna()] for a float64 column [col], the
    only kind of column the loop of [calculate_estimates] visits in a
    table with distinct column names. *)
Definition valid_data (df : DataFrame R) (col weight_column : string)
  : result (list (R * obj R)) :=
  selected <- getitem_list df [col; weight_column] ;;
  match selected with
  | [(_, NumCol vals); (_, w)] => Ok (dropna_pairs vals (cells w))
  | _ => Ok []
  end.

(** The loop of [calculate_estimates] over the numeric columns. *)
Fixpoint estimates_loop (df : DataFrame R) (weight_column : string)
  (numeric_cols : list string) (summary : list (string * (R * R)))
  : result (list (string * (R * R))) :=
  match numeric_cols with
  | [] => Ok summary
  | col :: rest =>
      if negb (String.eqb col weight_column) then
        valid <- valid_data df col weight_column ;;
        match valid with
        | _ :: _ =>
            let unweighted_mean := mean (map fst valid) in
            weighted_mean <- np_average (map fst valid) (map snd valid) ;;
            estimates_loop df weight_column rest
              (dict_set col (unweighted_mean, weighted_mean) summary)
        | [] => estimates_loop df weight_column rest summary
        end
      else estimates_loop df weight_column rest summary
  end.

Definition calculate_estimates (df : DataFrame R) (weight_column : string)
  : result (list (Estimate R) * string) :=
  if negb (has_column df weight_column) then
    Ok ([], ("Weight column '" ++ weight_column
             ++ "' not found in the dataframe.")%string)
  else
    let numeric_cols := select_numeric (columns df) in
    summary <- estimates_loop df weight_column numeric_cols [] ;;
    match summary with
    | [] => Ok ([], "No valid numeric columns to generate estimates for.")
    | _ :: _ =>
        let summary_df :=
          map (fun kv => mkEstimate (fst kv) (fst (snd kv)) (snd (snd kv)))
            summary in
        Ok (summary_df,
            ("Calculated weighted and unweighted means using '"
             ++ weight_column ++ "'.")%string)
    end.

(* ================================================================== *)
(** ** app.py: the analysis handler *)

Record SessionState := mkSessionState {
  df_final : DataFrame R;
  df_estimates : list (Estimate R);
  logs : list string
}.

(** What the button's handler computes and stores, from the uploaded table
    and the sidebar's configuration. *)
Definition run_analysis (df_raw : DataFrame R) (imputation_cols : list string)
  (imputation_method : string) (outlier_cols : list string)
  (weight_column : string) : result SessionState :=
  let logs0 : list string := [] in
  r1 <- impute_missing_values df_raw imputation_cols imputation_method ;;
  let (df_imputed, log1) := r1 in
  let logs1 := logs0 ++ [log1] in
  let (df_outliers_handled, log2) :=
    handle_outliers df_imputed outlier_cols "IQR" in
  let logs2 := logs1 ++ [log2] in
  r3 <- apply_rules df_outliers_handled ;;
  let (df_validated, log3) := r3 in
  let logs3 := logs2 ++ [log3] in
  r4 <- calculate_estimates df_validated weight_column ;;
  let (df_estimates', log4) := r4 in
  let logs4 := logs3 ++ [log4] in
  Ok (mkSessionState df_validated df_estimates' logs4).

End Processing.

Arguments mkSessionState {R} df_final df_estimates logs.
Arguments df_final {R} s.
Arguments df_estimates {R} s.
Arguments logs {R} s.

(* ================================================================== *)
(** ** Well-formed tables *)

(** What [read_csv] and [read_excel] guarantee: distinct row labels,
    distinct column names, and one cell per row in every column. *)
Definition wf_table {R : Type} (df : DataFrame R) : Prop :=
  NoDup (index df) /\
  NoDup (map fst (columns df)) /\
  Forall (fun nc => col_length (snd nc) = length (index df)) (columns df).

(** [df'] has the rows and the columns of [df]: same row labels, same
    column names in the same order, and, when [df] is well formed, still
    one cell per row in every column.  Only cell values may differ. *)
Definition same_rows {R : Type} (df df' : DataFrame R) : Prop :=
  index df' = index df /\
  map fst (columns df') = map fst (columns df) /\
  (wf_table df -> wf_table df').

(** The cell of row [i] in a column, if there is such a row. *)
Definition cell_at {R : Type} {NumR : Num R} (c : column R) (i : nat)
  : option (obj R) :=
  nth_error (cells c) i.

(** No cell of the column is text. *)
Definition no_text {R : Type} (c : column R) : Prop :=
  match c with
  | NumCol _ => True
  | ObjCol vals => forall s, ~ In (OStr s) vals
  end.

(* ================================================================== *)
(** ** The validation rule, row by row *)

Section Rule.
Context {R : Type} {NumR : Num R}.

(** The cell is a number below 18. *)
Definition under_18 (c : obj R) : bool :=
  match c with
  | ONum x => nltb x (of_nat 18)
  | _ => false
  end.

(** The cell is the text "Employed". *)
Definition is_employed (c : obj R) : bool :=
  match c with
  | OStr t => String.eqb t "Employed"
  | _ => false
  end.

(** Row by row: Age < 18 and Employment_Status == "Employed". *)
Definition violation_mask (age status : column R) : list bool :=
  map (fun p => under_18 (fst p) && is_employed (snd p))
    (combine (cells age) (cells status)).

(** The number of rows a mask selects. *)
Definition count_true (mask : list bool) : nat :=
  length (filter (fun b => b) mask).

End Rule.

(* ================================================================== *)
(** ** Outlier capping, column by column *)

Section Capped.
Context {R : Type} {NumR : Num R}.

(** What one visit of the loop of [handle_outliers] leaves in a float64
    column: the capped values when the column has outliers, the column
    itself when it has none. *)
Definition capped_values (vals : list (option R)) : list (option R) :=
  let (lower_bound, upper_bound) := iqr_bounds vals in
  if negb (Nat.eqb (length (filter (is_outlier lower_bound upper_bound) vals)) 0)
  then cap lower_bound upper_bound vals
  else vals.

Definition capped_column (c : column R) : column R :=
  match c with
  | NumCol vals => NumCol (capped_values vals)
  | ObjCol vals => ObjCol vals
  end.

(** The two [np.where] of the capping, on one cell. *)
Definition cap_cell (lower_bound upper_bound v : option R) : option R :=
  let v1 := if olt v lower_bound then lower_bound else v in
  if ogt v1 upper_bound then upper_bound else v1.

(** The log lines one visit of the loop appends for a float64 column. *)
Definition outlier_messages (method col : string) (vals : list (option R))
  : list string :=
  let (lower_bound, upper_bound) := iqr_bounds vals in
  let outliers := filter (is_outlier lower_bound upper_bound) vals in
  if negb (Nat.eqb (length outliers) 0) then
    [("Found " ++ str_nat (length outliers) ++ " outlier(s) in '" ++ col
      ++ "' using " ++ method ++ ".")%string;
     ("Capped outliers in '" ++ col ++ "' at lower:" ++ ofmt2f lower_bound
      ++ " and upper:" ++ ofmt2f upper_bound ++ ".")%string]
  else
    [("No outliers detected in '" ++ col ++ "' using " ++ method
      ++ ".")%string].

(** Two versions of a column with the same rows missing. *)
Definition same_missing (vals vals' : list (option R)) : Prop :=
  length vals' = length vals /\
  forall i, nth_error vals i = Some None <-> nth_error vals' i = Some None.

(** The column with its missing cells removed. *)
Definition observed (vals : list (option R)) : list (option R) :=
  map Some (present vals).

End Capped.

(* ================================================================== *)
(** ** Exact sums *)


(* ================================================================== *)
(** ** Tables used as examples *)

Definition qz (n : Z) : option Q := Some (inject_Z n).

(** The scenario of the specification. *)
Definition survey : DataFrame Q :=
  mkDataFrame [0; 1; 2; 3]
    [("Age", NumCol [qz 16; qz 25; qz 40; None]);
     ("Employment_Status",
      ObjCol [OStr "Employed"; OStr "Employed"; OStr "Unemployed";
              OStr "Employed"]);
     ("Design_Weight", NumCol [qz 1; qz 2; qz 1; qz 1])].

(** The same table once validated: row 0, a minor recorded as employed,
    is corrected. *)
Definition survey_validated : DataFrame Q :=
  mkDataFrame [0; 1; 2; 3]
    [("Age", NumCol [qz 16; qz 25; qz 40; None]);
     ("Employment_Status",
      ObjCol [OStr "Unemployed"; OStr "Employed"; OStr "Unemployed";
              OStr "Employed"]);
     ("Design_Weight", NumCol [qz 1; qz 2; qz 1; qz 1])].

(** One row, one numeric column without any observed value. *)
Definition all_missing : DataFrame Q :=
  mkDataFrame [0] [("x", NumCol [None])].




(** The column of [skewed] as float64 data. *)
Definition skewed_binary64 : DataFrame float :=
  mkDataFrame [0; 1; 2; 3]
    [("x", NumCol [Some 0%float; Some 100%float; Some 100%float;
                   Some 100%float])].

(** The scenario of the specification: one value far above the others,
    with a missing value besides. *)
Definition one_outlier : DataFrame Q :=
  mkDataFrame [0; 1; 2; 3; 4; 5]
    [("x", NumCol [qz 1; qz 2; None; qz 3; qz 4; qz 100])].

Definition one_outlier_capped : DataFrame Q :=
  mkDataFrame [0; 1; 2; 3; 4; 5]
    [("x", NumCol [qz 1; qz 2; None; qz 3; qz 4; qz 7])].

(** The scenario's table once imputed by the median on [Age]. *)
Definition survey_imputed : DataFrame Q :=
  mkDataFrame [0; 1; 2; 3]
    [("Age", NumCol [qz 16; qz 25; qz 40; qz 25]);
     ("Employment_Status",
      ObjCol [OStr "Employed"; OStr "Employed"; OStr "Unemployed";
              OStr "Employed"]);
     ("Design_Weight", NumCol [qz 1; qz 2; qz 1; qz 1])].

(** A table with a numeric column and no row. *)
Definition no_rows : DataFrame Q := mkDataFrame [] [("x", NumCol [])].

(** Weights that cancel out. *)
Definition cancelling_weights : DataFrame Q :=
  mkDataFrame [0; 1]
    [("v", NumCol [qz 1; qz 2]); ("w", NumCol [qz 1; qz (-1)])].

(** The ages are text. *)
Definition text_age : DataFrame Q :=
  mkDataFrame [0]
    [("Age", ObjCol [OStr "sixteen"]);
     ("Employment_Status", ObjCol [OStr "Employed"])].

(** A value column that is missing wherever the weight is present. *)
Definition disjoint_missing : DataFrame Q :=
  mkDataFrame [0; 1]
    [("Income", NumCol [qz 10; None]);
     ("Design_Weight", NumCol [None; qz 2])].



(* ================================================================== *)
(** ** Views of the stages used in the statements *)

Section Views.
Context {R : Type} {NumR : Num R}.

(** The strategy [impute_missing_values] gives to [SimpleImputer] for a
    method name: "Mean" is the mean, "KNN" is not a [SimpleImputer], and
    every other name is the median. *)
Definition strategy_of (method : string) : option strategy :=
  if String.eqb method "Mean" then Some strategy_mean
  else if String.eqb method "KNN" then None
  else Some strategy_median.

(** The block a mean or median imputation writes back for a selection: each
    column filled with its own statistic. *)
Definition imputed_block (s : strategy) (df : DataFrame R) (cols : list string)
  : list (list (option R)) :=
  map (fun c => fill (stat_value s (present (values_of df c))) (values_of df c))
    cols.


(** The column has at least one row where both its value and the weight
    are present. *)
Definition has_valid_data (df : DataFrame R) (weight_column col : string)
  : bool :=
  match valid_data df col weight_column with
  | Ok (_ :: _) => true
  | _ => false
  end.

(** The weights of the rows [dropna] kept, for numeric weights. *)
Definition weights_of (valid : list (R * obj R)) : list R :=
  flat_map (fun p => match snd p with ONum w => [w] | _ => [] end) valid.

(** What an entry of the summary holds for its column: the two means of
    the rows [dropna] kept. *)
Definition entry_ok (df : DataFrame R) (w : string) (kv : string * (R * R))
  : Prop :=
  exists valid,
    valid_data df (fst kv) w = Ok valid /\ valid <> [] /\
    fst (snd kv) = mean (map fst valid) /\
    np_average (map fst valid) (map snd valid) = Ok (snd (snd kv)).

(** The column has rows with value and weight present, and their weights
    sum to zero. *)
Definition zero_sum (df : DataFrame R) (w col : string) : Prop :=
  exists valid,
    valid_data df col w = Ok valid /\ valid <> [] /\
    neqb (nsum (weights_of valid)) (of_nat 0) = true.

(** [l.index(x)]: the first position of [x], ValueError when absent. *)
Fixpoint list_index (x : string) (l : list string) : result nat :=
  match l with
  | [] => Raise ValueError
  | y :: l' => if String.eqb y x then Ok 0
               else i <- list_index x l' ;; Ok (S i)
  end.

(** app.py, the default position of the weight selector:
    [numeric_columns.index('Design_Weight') if 'Design_Weight' in
    numeric_columns else 0]. *)
Definition default_weight_index (numeric_columns : list string) : result nat :=
  if existsb (String.eqb "Design_Weight") numeric_columns
  then list_index "Design_Weight" numeric_columns
  else Ok 0.

End Views.

(** Winsorizing one value: below the lower bound it becomes that bound,
    above the upper bound it becomes that bound, otherwise it stays. *)
Definition clamp (lb ub x : Q) : Q :=
  if Qltb x lb then lb else if Qltb ub x then ub else x.




(** The value of the cell is moved by winsorizing with these bounds. *)
Definition changed (lb ub : Q) (v : option Q) : bool :=
  match v with
  | Some x => negb (Qeq_bool (clamp lb ub x) x)
  | None => false
  end.

(* ================================================================== *)
(** * Properties *)

(** ** Columns by name *)

Section ColumnFacts.
Context {R : Type} {NumR : Num R}.
Implicit Types (df : DataFrame R) (c : column R) (cols : list (string * column R)).

Lemma assoc_none_iff name cols :
  assoc name cols = None <-> ~ In name (map fst cols).
Proof.
  induction cols as [|[n c] rest IH]; simpl.
  - tauto.
  - destruct (String.eqb_spec name n) as [->|Hne].
    + split; [discriminate | intros H; exfalso; apply H; now left].
    + rewrite IH. split; intros H.
      * intros [E|E]; [congruence | tauto].
      * intros E; apply H; now right.
Qed.

Lemma has_column_in df name :
  has_column df name = true <-> In name (map fst (columns df)).
Proof.
  unfold has_column, column_names. rewrite existsb_exists. split.
  - intros (x & Hin & E). apply String.eqb_eq in E. now subst.
  - intros Hin. exists name. split; [assumption | apply String.eqb_refl].
Qed.

Lemma has_column_false df name :
  has_column df name = false <-> get_column df name = None.
Proof.
  unfold get_column. rewrite assoc_none_iff, <- has_column_in.
  destruct (has_column df name); split; congruence.
Qed.

Lemma has_column_true df name :
  has_column df name = true <-> exists c, get_column df name = Some c.
Proof.
  destruct (get_column df name) as [c|] eqn:E.
  - split; [eauto|]. intros _. destruct (has_column df name) eqn:H; [reflexivity|].
    apply has_column_false in H. congruence.
  - apply has_column_false in E. rewrite E. split; [discriminate | intros (c & H); discriminate].
Qed.

Lemma assoc_set_same name c cols :
  assoc name (assoc_set name c cols) = Some c.
Proof.
  induction cols as [|[n c0] rest IH]; simpl.
  - now rewrite String.eqb_refl.
  - destruct (String.eqb_spec name n) as [->|Hne]; simpl.
    + now rewrite String.eqb_refl.
    + destruct (String.eqb_spec name n); [contradiction | exact IH].
Qed.

Lemma assoc_set_other name other c cols :
  other <> name -> assoc other (assoc_set name c cols) = assoc other cols.
Proof.
  intros Hne. induction cols as [|[n c0] rest IH]; simpl.
  - destruct (String.eqb_spec other name); [contradiction | reflexivity].
  - destruct (String.eqb_spec name n) as [->|Hn]; simpl.
    + destruct (String.eqb_spec other n); [contradiction | reflexivity].
    + destruct (String.eqb_spec other n); [reflexivity | exact IH].
Qed.

Lemma assoc_set_names name c cols :
  In name (map fst cols) ->
  map fst (assoc_set name c cols) = map fst cols.
Proof.
  induction cols as [|[n c0] rest IH]; simpl; [tauto|].
  intros Hin. destruct (String.eqb_spec name n) as [->|Hne]; simpl.
  - reflexivity.
  - f_equal. apply IH. destruct Hin; [congruence | assumption].
Qed.

Lemma assoc_set_id name c cols :
  assoc name cols = Some c -> assoc_set name c cols = cols.
Proof.
  induction cols as [|[n c0] rest IH]; simpl; [discriminate|].
  destruct (String.eqb_spec name n) as [->|Hne].
  - now intros [= ->].
  - intros H. now rewrite IH.
Qed.

Lemma assoc_in name c cols : assoc name cols = Some c -> In (name, c) cols.
Proof.
  induction cols as [|[n c0] rest IH]; simpl; [discriminate|].
  destruct (String.eqb_spec name n) as [->|Hne].
  - intros [= ->]. now left.
  - intros H. right. now apply IH.
Qed.

Lemma assoc_set_forall (P : string * column R -> Prop) name c cols :
  P (name, c) -> Forall P cols -> Forall P (assoc_set name c cols).
Proof.
  intros Hc. induction 1 as [|[n c0] rest Hx Hrest IH]; simpl.
  - now repeat constructor.
  - destruct (String.eqb_spec name n) as [->|Hne]; constructor; assumption.
Qed.

(** [df[names]] raises as soon as one name is not a column, and only then. *)
Lemma getitem_list_absent df names name :
  In name names -> get_column df name = None ->
  getitem_list df names = Raise KeyError.
Proof.
  induction names as [|n rest IH]; simpl; [tauto|].
  intros [->|Hin] Hnone.
  - now rewrite Hnone.
  - destruct (get_column df n); [|reflexivity].
    now rewrite (IH Hin Hnone).
Qed.

Lemma getitem_list_ok df names sel :
  getitem_list df names = Ok sel ->
  map fst sel = names /\
  Forall (fun nc => get_column df (fst nc) = Some (snd nc)) sel.
Proof.
  revert sel. induction names as [|n rest IH]; simpl; intros sel H.
  - injection H as <-. split; constructor.
  - destruct (get_column df n) as [c|] eqn:E; [|discriminate].
    destruct (getitem_list df rest) as [tl|] eqn:Erest; simpl in H; [|discriminate].
    injection H as <-. destruct (IH tl eq_refl) as [Hn Hf].
    split; simpl; [now f_equal | now constructor].
Qed.

Lemma getitem_list_present df names :
  (forall n, In n names -> exists c, get_column df n = Some c) ->
  exists sel, getitem_list df names = Ok sel.
Proof.
  induction names as [|n rest IH]; simpl; intros H.
  - eauto.
  - destruct (H n (or_introl eq_refl)) as (c & ->).
    destruct IH as (tl & ->); [intros; apply H; now right|].
    simpl. eauto.
Qed.

End ColumnFacts.

(* ================================================================== *)
(** ** Imputation: a selected column that is not in the table *)

Section ImputeAbsent.
Context {R : Type} {NumR : Num R}.
Variable knn : nat -> list (list (option R)) -> result (list (list (option R))).

(** C1 (the case the code misses): when the selection names a column that
    the table does not have, [impute_missing_values] does not return the
    table with a log line: indexing the table with the selection raises
    KeyError, for every method.  ([handle_outliers] filters such names
    out before it does anything.) *)
Theorem impute_absent_column_raises (df : DataFrame R) (cols : list string)
  (method name : string) :
  In name cols -> has_column df name = false ->
  impute_missing_values knn df cols method = Raise KeyError.
Proof.
  intros Hin Habs. apply has_column_false in Habs.
  unfold impute_missing_values.
  now rewrite (getitem_list_absent df cols name Hin Habs).
Qed.

End ImputeAbsent.

Lemma impute_absent_column_raises_witness :
  In "Income" ["Age"; "Income"] /\ has_column survey "Income" = false /\
  forall knn,
    impute_missing_values knn survey ["Age"; "Income"] "Median"
    = Raise KeyError.
Proof.
  split; [simpl; tauto|]. split; [reflexivity|].
  intros knn.
  apply (impute_absent_column_raises knn survey ["Age"; "Income"] "Median" "Income").
  - simpl; tauto.
  - reflexivity.
Defined.

(* ================================================================== *)
(** ** The handler: order of the stages *)

Section Handler.
Context {R : Type} {NumR : Num R}.
Variable knn : nat -> list (list (option R)) -> result (list (list (option R))).

(** C4: the handler succeeds exactly when imputation, then outlier
    capping of the imputed table, then validation of the capped table,
    then estimation on the validated table succeed, each stage taking the
    table the previous one returned; it stores the validated table, the
    estimates computed from it, and the four logs in stage order. *)
Theorem run_analysis_stage_order (df_raw : DataFrame R)
  (imputation_cols : list string) (imputation_method : string)
  (outlier_cols : list string) (weight_column : string)
  (st : SessionState) :
  run_analysis knn df_raw imputation_cols imputation_method outlier_cols
    weight_column = Ok st
  <->
  exists df_imputed log1 df_outliers_handled log2 df_validated log3
         estimates log4,
    impute_missing_values knn df_raw imputation_cols imputation_method
      = Ok (df_imputed, log1) /\
    handle_outliers df_imputed outlier_cols "IQR"
      = (df_outliers_handled, log2) /\
    apply_rules df_outliers_handled = Ok (df_validated, log3) /\
    calculate_estimates df_validated weight_column = Ok (estimates, log4) /\
    st = mkSessionState df_validated estimates [log1; log2; log3; log4].
Proof.
  unfold run_analysis. split.
  - intros H.
    destruct (impute_missing_values knn df_raw imputation_cols imputation_method)
      as [[df1 l1]|] eqn:E1; simpl in H; [|discriminate].
    destruct (handle_outliers df1 outlier_cols "IQR") as [df2 l2] eqn:E2.
    destruct (apply_rules df2) as [[df3 l3]|] eqn:E3; simpl in H; [|discriminate].
    destruct (calculate_estimates df3 weight_column) as [[e l4]|] eqn:E4;
      simpl in H; [|discriminate].
    injection H as <-.
    exists df1, l1, df2, l2, df3, l3, e, l4. repeat split; assumption.
  - intros (df1 & l1 & df2 & l2 & df3 & l3 & e & l4 & E1 & E2 & E3 & E4 & ->).
    rewrite E1; simpl. rewrite E2, E3; simpl. now rewrite E4.
Qed.

End Handler.

(* ================================================================== *)
(** ** Estimation: the empty results *)

Section EstimatesEmpty.
Context {R : Type} {NumR : Num R}.

Lemma estimates_loop_nothing (df : DataFrame R) (w : string)
  (numeric_cols : list string) (summary : list (string * (R * R))) :
  (forall col, In col numeric_cols -> col <> w -> valid_data df col w = Ok []) ->
  estimates_loop df w numeric_cols summary = Ok summary.
Proof.
  induction numeric_cols as [|col rest IH]; simpl; intros H; [reflexivity|].
  destruct (String.eqb_spec col w) as [->|Hne]; simpl.
  - apply IH. intros c Hc. apply H. now right.
  - rewrite (H col (or_introl eq_refl) Hne). simpl.
    apply IH. intros c Hc. apply H. now right.
Qed.

(** C6: without the weight column the estimate table is empty and the log
    says that the column was not found; with it, when every numeric column
    other than the weight column has an empty pairwise-complete subset
    with the weights, the estimate table is empty and the log says that
    there are no valid columns. *)
Theorem calculate_estimates_empty (df : DataFrame R) (weight_column : string) :
  (has_column df weight_column = false ->
   calculate_estimates df weight_column
   = Ok ([], ("Weight column '" ++ weight_column
              ++ "' not found in the dataframe.")%string))
  /\
  (has_column df weight_column = true ->
   (forall col, In col (select_numeric (columns df)) ->
                col <> weight_column ->
                valid_data df col weight_column = Ok []) ->
   calculate_estimates df weight_column
   = Ok ([], "No valid numeric columns to generate estimates for.")).
Proof.
  unfold calculate_estimates. split.
  - now intros ->.
  - intros -> H. simpl. now rewrite (estimates_loop_nothing _ _ _ [] H).
Qed.

End EstimatesEmpty.

Lemma calculate_estimates_empty_witness :
  (has_column survey "Weight" = false /\
   calculate_estimates survey "Weight"
   = Ok ([], "Weight column 'Weight' not found in the dataframe."))
  /\
  (has_column disjoint_missing "Design_Weight" = true /\
   calculate_estimates disjoint_missing "Design_Weight"
   = Ok ([], "No valid numeric columns to generate estimates for.")).
Proof.
  split.
  - split; [reflexivity|].
    apply (proj1 (calculate_estimates_empty survey "Weight")). reflexivity.
  - split; [reflexivity|].
    apply (proj2 (calculate_estimates_empty disjoint_missing "Design_Weight")).
    + reflexivity.
    + simpl. intros col [<-|[<-|[]]] Hne; [reflexivity | congruence].
Defined.

(* ================================================================== *)
(** ** Imputation by mean or median *)

Section Impute.
Context {R : Type} {NumR : Num R}.
Variable knn : nat -> list (list (option R)) -> result (list (list (option R))).
Implicit Types (df : DataFrame R) (vals : list (option R)).

Lemma fill_length (s : R) vals : length (fill s vals) = length vals.
Proof. apply length_map. Qed.


Lemma set_column_index df name (c : column R) :
  index (set_column df name c) = index df.
Proof. reflexivity. Qed.

Lemma get_set_column_same df name (c : column R) :
  get_column (set_column df name c) name = Some c.
Proof. apply assoc_set_same. Qed.

Lemma get_set_column_other df name other (c : column R) :
  other <> name ->
  get_column (set_column df name c) other = get_column df other.
Proof. apply assoc_set_other. Qed.

Lemma set_column_names df name (c : column R) :
  In name (column_names df) ->
  column_names (set_column df name c) = column_names df.
Proof. apply assoc_set_names. Qed.

(** [df[names] = block], one existing column per name, all distinct. *)
Lemma assign_columns_spec (names : list string) :
  forall (block : list (list (option R))) df,
  length block = length names -> NoDup names ->
  (forall n, In n names -> In n (column_names df)) ->
  let df' := assign_columns df names block in
  index df' = index df /\
  column_names df' = column_names df /\
  (forall c, ~ In c names -> get_column df' c = get_column df c) /\
  (forall i n vals, nth_error names i = Some n ->
                    nth_error block i = Some vals ->
                    get_column df' n = Some (NumCol vals)).
Proof.
  induction names as [|n names IH]; intros block df Hlen Hnd Hin; simpl.
  - repeat split; try reflexivity. intros [|i] ? ? H; discriminate.
  - destruct block as [|vals block]; [discriminate|].
    inversion Hnd as [|? ? Hnotin Hnd']; subst.
    assert (Hn : In n (column_names df)) by (apply Hin; now left).
    destruct (IH block (set_column df n (NumCol vals))) as (Hi & Hc & Ho & Hs).
    + simpl in Hlen. lia.
    + assumption.
    + intros m Hm. rewrite set_column_names by assumption. apply Hin. now right.
    + repeat split.
      * now rewrite Hi.
      * rewrite Hc. now apply set_column_names.
      * intros c Hc'. rewrite Ho by (intros H; apply Hc'; now right).
        apply get_set_column_other. intros ->. apply Hc'. now left.
      * intros [|i] m v Hm Hv; simpl in Hm, Hv.
        -- injection Hm as <-. injection Hv as <-.
           rewrite Ho by assumption. apply get_set_column_same.
        -- eapply Hs; eassumption.
Qed.

Lemma select_numeric_all (sel : list (string * column R)) :
  Forall (fun nc => is_numeric_dtype (snd nc) = true) sel ->
  select_numeric sel = map fst sel.
Proof.
  unfold select_numeric. induction 1 as [|[n c] rest Hc _ IH]; simpl.
  - reflexivity.
  - simpl in Hc. rewrite Hc. simpl. now f_equal.
Qed.

Lemma numeric_block_all df (names : list string) :
  (forall n, In n names -> exists vals, get_column df n = Some (NumCol vals)) ->
  numeric_block df names = map (values_of df) names.
Proof.
  induction names as [|n rest IH]; simpl; intros H; [reflexivity|].
  unfold values_of at 1.
  destruct (H n (or_introl eq_refl)) as (vals & ->).
  f_equal. apply IH. intros; apply H; now right.
Qed.

Lemma simple_fit_transform_all (s : strategy) (n_samples : nat)
  (X : list (list (option R))) :
  n_samples <> 0 ->
  Forall (fun vals => present vals <> []) X ->
  simple_fit_transform s n_samples X
  = Ok (map (fun vals => fill (stat_value s (present vals)) vals) X).
Proof.
  intros Hn HX. unfold simple_fit_transform.
  destruct (Nat.eqb_spec n_samples 0); [contradiction|]. f_equal.
  induction HX as [|vals rest Hv _ IH]; simpl; [reflexivity|].
  unfold statistic. destruct (present vals); [contradiction|].
  simpl. now f_equal.
Qed.

Lemma present_length vals : length (present vals) <= length vals.
Proof.
  induction vals as [|[x|] rest IH]; simpl; lia.
Qed.


End Impute.

Ltac solve_nodup :=
  repeat constructor; simpl; intuition (discriminate || lia).

Ltac solve_wf :=
  unfold wf_table; simpl; repeat split; solve [solve_nodup | repeat constructor].



(* ================================================================== *)
(** ** Rows are preserved *)

Section Rows.
Context {R : Type} {NumR : Num R}.
Variable knn : nat -> list (list (option R)) -> result (list (list (option R))).
Implicit Types (df : DataFrame R) (vals : list (option R)).

Lemma same_rows_refl df : same_rows df df.
Proof. split; [reflexivity | split; [reflexivity | exact (fun H => H)]]. Qed.

Lemma same_rows_trans df1 df2 df3 :
  same_rows df1 df2 -> same_rows df2 df3 -> same_rows df1 df3.
Proof.
  intros (I1 & C1 & W1) (I2 & C2 & W2).
  split; [congruence | split; [congruence | auto]].
Qed.

(** Replacing an existing column by one of the right length. *)
Lemma same_rows_set_column df name (c : column R) :
  In name (column_names df) ->
  (wf_table df -> col_length c = length (index df)) ->
  same_rows df (set_column df name c).
Proof.
  intros Hin Hlen. split; [reflexivity|].
  split; [now apply set_column_names|].
  intros Hwf. pose proof (Hlen Hwf) as Hc. destruct Hwf as (Hi & Hn & Hf).
  split; [exact Hi|]. split.
  - change (NoDup (column_names (set_column df name c))).
    now rewrite set_column_names.
  - simpl. apply assoc_set_forall; assumption.
Qed.

Lemma get_column_in_names df name (c : column R) :
  get_column df name = Some c -> In name (column_names df).
Proof.
  intros E. apply has_column_in, has_column_true. eauto.
Qed.

Lemma wf_column_length df name (c : column R) :
  wf_table df -> get_column df name = Some c ->
  col_length c = length (index df).
Proof.
  intros (_ & _ & Hf) E. apply assoc_in in E.
  rewrite Forall_forall in Hf. exact (Hf _ E).
Qed.

Lemma same_rows_assign_columns (names : list string) :
  forall (block : list (list (option R))) df,
  (forall n, In n names -> In n (column_names df)) ->
  Forall (fun vals => length vals = length (index df)) block ->
  same_rows df (assign_columns df names block).
Proof.
  induction names as [|n names IH]; intros block df Hin Hb; simpl.
  - apply same_rows_refl.
  - destruct block as [|vals block]; [apply same_rows_refl|].
    inversion Hb as [|? ? Hv Hb']; subst.
    apply same_rows_trans with (set_column df n (NumCol vals)).
    + apply same_rows_set_column; [apply Hin; now left | intros _; exact Hv].
    + apply IH.
      * intros m Hm. rewrite set_column_names by (apply Hin; now left).
        apply Hin. now right.
      * exact Hb'.
Qed.

Lemma impute_same_rows df (cols : list string) (method : string) df' log :
  impute_missing_values knn df cols method = Ok (df', log) ->
  same_rows df df'.
Proof.
  unfold impute_missing_values.
  destruct (getitem_list df cols) as [sel|] eqn:Esel; simpl; [|discriminate].
  destruct (getitem_list_ok df cols sel Esel) as (Hnames & Hsel).
  destruct (select_numeric sel) as [|c0 rest] eqn:Enum.
  { intros [= <- _]. apply same_rows_refl. }
  destruct (fit_transform _ _ _) as [block|]; simpl; [|discriminate].
  unfold setitem_block.
  destruct (Nat.eqb (length block) (length (c0 :: rest))); simpl; [|discriminate].
  destruct (forallb _ block) eqn:Hall; simpl; [|discriminate].
  intros [= <- _]. apply (same_rows_assign_columns (c0 :: rest) block df).
  - intros n Hn. rewrite <- Enum in Hn. unfold select_numeric in Hn.
    apply in_map_iff in Hn. destruct Hn as ([m c] & <- & Hm).
    apply filter_In in Hm. destruct Hm as (Hm & _).
    rewrite Forall_forall in Hsel. specialize (Hsel _ Hm).
    eapply get_column_in_names; eassumption.
  - apply Forall_forall. intros vals Hv.
    rewrite forallb_forall in Hall. now apply Nat.eqb_eq, Hall.
Qed.

Lemma cap_length (lower_bound upper_bound : option R) vals :
  length (cap lower_bound upper_bound vals) = length vals.
Proof. unfold cap. now rewrite !length_map. Qed.

Lemma handle_outliers_col_same_rows (method : string) df msgs (col : string) :
  same_rows df (fst (handle_outliers_col method (df, msgs) col)).
Proof.
  unfold handle_outliers_col.
  destruct (get_column df col) as [[vals|vals]|] eqn:E;
    try apply same_rows_refl.
  destruct (iqr_bounds vals) as [lower_bound upper_bound].
  destruct (negb _); simpl; [|apply same_rows_refl].
  apply same_rows_set_column.
  - eapply get_column_in_names; eassumption.
  - intros Hwf. simpl. rewrite cap_length.
    exact (wf_column_length df col _ Hwf E).
Qed.

Lemma handle_outliers_fold_same_rows (method : string) (cols : list string) :
  forall df msgs,
  same_rows df (fst (fold_left (handle_outliers_col method) cols (df, msgs))).
Proof.
  induction cols as [|col rest IH]; intros df msgs; cbn [fold_left].
  - apply same_rows_refl.
  - pose proof (handle_outliers_col_same_rows method df msgs col) as H.
    destruct (handle_outliers_col method (df, msgs) col) as [df1 msgs1].
    eapply same_rows_trans; [exact H | apply IH].
Qed.

Lemma handle_outliers_same_rows df (cols : list string) (method : string) :
  same_rows df (fst (handle_outliers df cols method)).
Proof.
  unfold handle_outliers.
  pose proof (handle_outliers_fold_same_rows method
                (filter (has_column df) cols) df []) as H.
  destruct (fold_left _ _ _) as [df1 msgs1]. exact H.
Qed.

Lemma loc_set_str_same_rows df (labels : list nat) (name s : string) :
  In name (column_names df) ->
  same_rows df (loc_set_str df labels name s).
Proof.
  intros Hin. unfold loc_set_str. apply same_rows_set_column; [assumption|].
  intros Hwf. simpl. rewrite length_map, length_combine.
  destruct (get_column df name) as [c|] eqn:E.
  - pose proof (wf_column_length df name c Hwf E) as Hl.
    destruct c; simpl in *; rewrite ?length_map; lia.
  - rewrite length_map. lia.
Qed.

Lemma apply_rules_same_rows df df' log :
  apply_rules df = Ok (df', log) -> same_rows df df'.
Proof.
  unfold apply_rules.
  destruct (has_column df "Age" && has_column df "Employment_Status") eqn:Hc;
    [|intros [= <- _]; apply same_rows_refl].
  apply andb_prop in Hc. destruct Hc as (_ & Hes).
  destruct (getitem df "Age") as [age|]; simpl; [|discriminate].
  destruct (lt_scalar age (of_nat 18)) as [under_18|]; simpl; [|discriminate].
  destruct (getitem df "Employment_Status") as [status|]; simpl; [|discriminate].
  destruct (index_where _ _) as [|l ls].
  - intros [= <- _]. apply same_rows_refl.
  - intros [= <- _]. apply loc_set_str_same_rows.
    now apply has_column_in.
Qed.

(** C9: each of the three cleaning stages returns a table with the row
    labels (hence the number of rows) and the column names of its input,
    and with one cell per row in every column when the input had: only
    cell values may differ.  Imputation and validation are stated for the
    calls that return. *)
Theorem stages_preserve_rows df (cols : list string) (method : string) :
  (forall df' log,
     impute_missing_values knn df cols method = Ok (df', log) ->
     same_rows df df') /\
  same_rows df (fst (handle_outliers df cols method)) /\
  (forall df' log, apply_rules df = Ok (df', log) -> same_rows df df').
Proof.
  split; [|split].
  - intros df' log. apply impute_same_rows.
  - apply handle_outliers_same_rows.
  - intros df' log. apply apply_rules_same_rows.
Qed.

End Rows.

Lemma stages_preserve_rows_witness :
  same_rows survey (fst (handle_outliers survey ["Age"] "IQR")) /\
  (exists df' log, apply_rules survey = Ok (df', log) /\ same_rows survey df') /\
  forall knn, exists df' log,
    impute_missing_values knn survey ["Age"] "Median" = Ok (df', log) /\
    same_rows survey df'.
Proof.
  pose (knn0 := fun (_ : nat) (_ : list (list (option Q))) =>
                  @Raise (list (list (option Q))) ValueError).
  split; [|split].
  - apply (proj1 (proj2 (stages_preserve_rows knn0 survey ["Age"] "IQR"))).
  - eexists _, _. split; [reflexivity|].
    eapply (proj2 (proj2 (stages_preserve_rows knn0 survey [] ""))).
    reflexivity.
  - intros knn. eexists _, _. split; [reflexivity|].
    eapply (proj1 (stages_preserve_rows knn survey ["Age"] "Median")).
    reflexivity.
Defined.

(* ================================================================== *)
(** ** Rule validation *)

Lemma nth_error_combine {A B : Type} (l1 : list A) (l2 : list B) (i : nat) :
  nth_error (combine l1 l2) i =
  match nth_error l1 i, nth_error l2 i with
  | Some a, Some b => Some (a, b)
  | _, _ => None
  end.
Proof.
  revert l2 i. induction l1 as [|a l1 IH]; intros [|b l2] [|i]; simpl;
    try reflexivity.
  - now destruct (nth_error l1 i).
  - apply IH.
Qed.

Section Rules.
Context {R : Type} {NumR : Num R}.
Implicit Types (df : DataFrame R) (age status : column R).

Lemma obj_lt_scalar_ok (vals : list (obj R)) (k : R) (m : list bool) :
  obj_lt_scalar vals k = Ok m ->
  m = map (fun c => match c with ONum x => nltb x k | _ => false end) vals
  /\ forall s, ~ In (OStr s) vals.
Proof.
  revert m. induction vals as [|c rest IH]; simpl; intros m H.
  - injection H as <-. split; [reflexivity | intros s []].
  - destruct c as [s|x|]; simpl in H; try discriminate;
      destruct (obj_lt_scalar rest k) as [bs|]; simpl in H; try discriminate;
      injection H as <-; destruct (IH bs eq_refl) as (-> & Hno);
      (split; [reflexivity | intros s [E|E]; [discriminate | exact (Hno s E)]]).
Qed.

Lemma obj_lt_scalar_no_text (vals : list (obj R)) (k : R) :
  (forall s, ~ In (OStr s) vals) ->
  exists m, obj_lt_scalar vals k = Ok m.
Proof.
  induction vals as [|c rest IH]; simpl; intros H; [eauto|].
  destruct IH as (bs & ->); [intros s Hs; apply (H s); now right|].
  destruct c as [s|x|]; simpl; eauto.
  exfalso. apply (H s). now left.
Qed.

(** The mask [df['Age'] < 18], when it can be computed. *)
Lemma lt_scalar_ok age (m : list bool) :
  lt_scalar age (of_nat 18) = Ok m -> m = map under_18 (cells age).
Proof.
  destruct age as [vals|vals]; simpl.
  - intros [= <-]. rewrite map_map. apply map_ext. now intros [x|].
  - intros H. now destruct (obj_lt_scalar_ok _ _ _ H) as (-> & _).
Qed.

Lemma lt_scalar_no_text age :
  no_text age -> lt_scalar age (of_nat 18) = Ok (map under_18 (cells age)).
Proof.
  intros H. destruct age as [vals|vals].
  - simpl. f_equal. rewrite map_map. apply map_ext. now intros [x|].
  - destruct (obj_lt_scalar_no_text vals (of_nat 18) H) as (m & E).
    simpl. rewrite E. f_equal. exact (lt_scalar_ok (ObjCol vals) m E).
Qed.

(** The mask [df['Employment_Status'] == 'Employed']. *)
Lemma eq_scalar_str_employed status :
  eq_scalar_str status "Employed" = map is_employed (cells status).
Proof.
  destruct status as [vals|vals]; simpl.
  - rewrite map_map. apply map_ext. now intros [x|].
  - apply map_ext. now intros [t|x|].
Qed.

Lemma mask_and_map {A B : Type} (f : A -> bool) (g : B -> bool)
  (l1 : list A) (l2 : list B) :
  mask_and (map f l1) (map g l2)
  = map (fun p => f (fst p) && g (snd p)) (combine l1 l2).
Proof.
  unfold mask_and. revert l2. induction l1 as [|a l1 IH]; intros [|b l2];
    simpl; try reflexivity.
  now rewrite IH.
Qed.

Lemma in_index_where (labels : list nat) (mask : list bool) (l : nat) :
  In l (index_where labels mask) <->
  exists i, nth_error labels i = Some l /\ nth_error mask i = Some true.
Proof.
  unfold index_where. rewrite in_map_iff. split.
  - intros ([l' b] & <- & Hin). apply filter_In in Hin.
    destruct Hin as (Hin & Hb). simpl in Hb. subst b.
    destruct (In_nth_error _ _ Hin) as (i & Hi).
    rewrite nth_error_combine in Hi. exists i.
    destruct (nth_error labels i), (nth_error mask i); try discriminate.
    injection Hi as -> ->. now split.
  - intros (i & Hl & Hm). exists (l, true). split; [reflexivity|].
    apply filter_In. split; [|reflexivity].
    apply (nth_error_In _ i). now rewrite nth_error_combine, Hl, Hm.
Qed.

Lemma index_where_length (labels : list nat) (mask : list bool) :
  length mask <= length labels ->
  length (index_where labels mask) = count_true mask.
Proof.
  unfold index_where, count_true. rewrite length_map.
  revert mask. induction labels as [|l labels IH]; intros [|b mask]; simpl;
    try reflexivity; try lia.
  intros H. destruct b; simpl; rewrite IH; lia.
Qed.

Lemma index_where_nil (labels : list nat) (mask : list bool) :
  (forall i, nth_error labels i <> None -> nth_error mask i <> Some true) ->
  index_where labels mask = [].
Proof.
  intros H. destruct (index_where labels mask) as [|l ls] eqn:E; [reflexivity|].
  assert (Hin : In l (index_where labels mask)) by (rewrite E; now left).
  apply in_index_where in Hin. destruct Hin as (i & Hl & Hm).
  exfalso. apply (H i); [congruence | assumption].
Qed.

(** The column written by [df.loc[labels, name] = s], cell by cell. *)
Lemma loc_set_str_cells df (labels : list nat) (name s : string) :
  exists written,
    get_column (loc_set_str df labels name s) name = Some (ObjCol written) /\
    forall i,
      nth_error written i =
      match nth_error (index df) i,
            nth_error (match get_column df name with
                       | Some c => cells c
                       | None => map (fun _ => ONone) (index df)
                       end) i with
      | Some l, Some c =>
          Some (if existsb (Nat.eqb l) labels then OStr s else c)
      | _, _ => None
      end.
Proof.
  unfold loc_set_str. eexists. split; [apply get_set_column_same|].
  intros i. rewrite nth_error_map, nth_error_combine.
  destruct (nth_error (index df) i); [|reflexivity].
  now destruct (nth_error _ i).
Qed.

Lemma existsb_eqb_in (l : nat) (labels : list nat) :
  existsb (Nat.eqb l) labels = true <-> In l labels.
Proof.
  rewrite existsb_exists. split.
  - intros (x & Hin & E). apply Nat.eqb_eq in E. now subst.
  - intros Hin. exists l. split; [assumption | apply Nat.eqb_refl].
Qed.

Lemma cells_length (c : column R) : length (cells c) = col_length c.
Proof. destruct c; simpl; [apply length_map | reflexivity]. Qed.

Lemma violation_mask_length df age status :
  wf_table df ->
  get_column df "Age" = Some age ->
  get_column df "Employment_Status" = Some status ->
  length (violation_mask age status) = length (index df).
Proof.
  intros Hwf Ea Es. unfold violation_mask.
  rewrite length_map, length_combine, !cells_length.
  rewrite (wf_column_length df _ _ Hwf Ea), (wf_column_length df _ _ Hwf Es).
  lia.
Qed.

(** With distinct row labels, the labels of the selected rows select
    exactly those rows again. *)
Lemma label_selected (labels : list nat) (mask : list bool) (i l : nat) :
  NoDup labels -> nth_error labels i = Some l ->
  (In l (index_where labels mask) <-> nth_error mask i = Some true).
Proof.
  intros Hnd Hl. rewrite in_index_where. split.
  - intros (j & Hj & Hm).
    assert (i = j) as ->; [|assumption].
    apply (proj1 (NoDup_nth_error labels) Hnd).
    + apply nth_error_Some. congruence.
    + congruence.
  - intros Hm. eauto.
Qed.

(** C5 (amended): on a well-formed table whose [Age] column holds no
    text, [apply_rules] returns a table with the same rows and columns in
    which [Employment_Status] reads "Unemployed" exactly in the rows where
    Age < 18 and Employment_Status is "Employed", every other cell being
    unchanged, and the log gives the number of rows corrected, or says
    that there was no violation; when one of the two columns is absent
    the table is returned unchanged and the log says that the rule could
    not be applied. *)
Theorem apply_rules_corrects df :
  (forall age status,
     wf_table df ->
     get_column df "Age" = Some age ->
     get_column df "Employment_Status" = Some status ->
     no_text age ->
     let mask := violation_mask age status in
     exists df' status',
       apply_rules df
       = Ok (df',
             if Nat.eqb (count_true mask) 0 then "No rule violations found."
             else ("Found " ++ str_nat (count_true mask)
                   ++ " rule violation(s): Age < 18 and Employed. Correcting status to 'Unemployed'.")%string)
       /\ same_rows df df'
       /\ (forall c, c <> "Employment_Status" ->
                     get_column df' c = get_column df c)
       /\ get_column df' "Employment_Status" = Some status'
       /\ forall i,
            cell_at status' i =
            match nth_error mask i with
            | Some true => Some (OStr "Unemployed")
            | _ => cell_at status i
            end)
  /\
  (has_column df "Age" = false \/ has_column df "Employment_Status" = false ->
   apply_rules df
   = Ok (df, "Could not apply age/employment rule: required columns not found.")).
Proof.
  split.
  - intros age status Hwf Ea Es Hnt mask.
    pose proof (violation_mask_length df age status Hwf Ea Es) as Hlen.
    fold mask in Hlen.
    unfold apply_rules.
    replace (has_column df "Age") with true
      by (symmetry; apply has_column_true; eauto).
    replace (has_column df "Employment_Status") with true
      by (symmetry; apply has_column_true; eauto).
    unfold getitem. rewrite Ea, Es. cbn [andb bind].
    rewrite (lt_scalar_no_text age Hnt). cbn [bind].
    rewrite eq_scalar_str_employed, mask_and_map.
    change (map _ (combine (cells age) (cells status))) with mask.
    pose proof (index_where_length (index df) mask) as Hcount.
    rewrite Hlen in Hcount. specialize (Hcount (Nat.le_refl _)).
    destruct Hwf as (Hnd & Hwf').
    destruct (index_where (index df) mask) as [|l ls] eqn:Elabels.
    + (* no violation *)
      simpl in Hcount. rewrite <- Hcount. simpl.
      exists df, status. split; [reflexivity|].
      split; [apply same_rows_refl|]. split; [reflexivity|].
      split; [assumption|]. intros i.
      destruct (nth_error mask i) as [[|]|] eqn:Em; try reflexivity.
      exfalso.
      destruct (nth_error (index df) i) as [l|] eqn:El.
      * assert (Hin : In l (index_where (index df) mask))
          by (apply (label_selected _ _ i); assumption).
        rewrite Elabels in Hin. destruct Hin.
      * apply nth_error_None in El.
        assert (i < length mask) by (apply nth_error_Some; congruence). lia.
    + (* some violations *)
      rewrite <- Elabels in *.
      assert (Hpos : Nat.eqb (count_true mask) 0 = false).
      { apply Nat.eqb_neq. rewrite <- Hcount, Elabels. simpl. lia. }
      rewrite Hpos, Hcount.
      destruct (loc_set_str_cells df (index_where (index df) mask)
                  "Employment_Status" "Unemployed") as (written & Eget & Hcells).
      rewrite Es in Hcells.
      eexists _, (ObjCol written). split; [reflexivity|].
      split; [apply loc_set_str_same_rows; eapply get_column_in_names; eassumption|].
      split; [intros c Hc; now apply get_set_column_other|].
      split; [exact Eget|]. intros i. unfold cell_at at 1. simpl.
      rewrite Hcells.
      assert (Emask : nth_error mask i =
                      match nth_error (cells age) i, nth_error (cells status) i with
                      | Some a, Some e => Some (under_18 a && is_employed e)
                      | _, _ => None
                      end).
      { unfold mask, violation_mask. rewrite nth_error_map, nth_error_combine.
        destruct (nth_error (cells age) i), (nth_error (cells status) i);
          reflexivity. }
      unfold cell_at.
      destruct (nth_error (index df) i) as [l0|] eqn:El.
      * destruct (nth_error (cells status) i) as [c|] eqn:Ec.
        -- pose proof (label_selected (index df) mask i l0 Hnd El) as Hsel.
           destruct (existsb (Nat.eqb l0) (index_where (index df) mask)) eqn:Ex.
           ++ apply existsb_eqb_in, Hsel in Ex. now rewrite Ex.
           ++ destruct (nth_error mask i) as [[|]|] eqn:Em; try reflexivity.
              apply proj2 in Hsel. specialize (Hsel eq_refl).
              apply existsb_eqb_in in Hsel. congruence.
        -- rewrite Emask. now destruct (nth_error (cells age) i).
      * apply nth_error_None in El.
        assert (Hm : nth_error mask i = None) by (apply nth_error_None; lia).
        rewrite Hm. symmetry. apply nth_error_None.
        rewrite cells_length.
        rewrite (wf_column_length df _ _ (conj Hnd Hwf') Es). lia.
  - intros H. unfold apply_rules.
    destruct H as [-> | ->]; [reflexivity|].
    now rewrite andb_false_r.
Qed.

End Rules.

Lemma apply_rules_corrects_witness :
  wf_table survey /\
  no_text (NumCol [qz 16; qz 25; qz 40; None]) /\
  (exists df' status',
     apply_rules survey
     = Ok (df', "Found 1 rule violation(s): Age < 18 and Employed. Correcting status to 'Unemployed'.")
     /\ get_column df' "Age" = get_column survey "Age"
     /\ get_column df' "Employment_Status" = Some status'
     /\ cell_at status' 0 = Some (OStr "Unemployed")
     /\ cell_at status' 1 = Some (OStr "Employed")) /\
  has_column all_missing "Age" = false /\
  apply_rules all_missing
  = Ok (all_missing,
        "Could not apply age/employment rule: required columns not found.").
Proof.
  split; [solve_wf|]. split; [exact I|]. split; [|split; [reflexivity|]].
  - destruct (proj1 (apply_rules_corrects survey)
                (NumCol [qz 16; qz 25; qz 40; None])
                (ObjCol [OStr "Employed"; OStr "Employed"; OStr "Unemployed";
                         OStr "Employed"]))
      as (df' & status' & E & _ & Ho & Es & Hc).
    + solve_wf.
    + reflexivity.
    + reflexivity.
    + exact I.
    + exists df', status'. split; [exact E|].
      split; [apply Ho; discriminate|]. split; [exact Es|].
      split; [exact (Hc 0) | exact (Hc 1)].
  - apply (proj2 (apply_rules_corrects all_missing)). now left.
Defined.

(** C5 as stated fails: a table can hold both columns with ages written
    as text, and then comparing the ages with 18 raises TypeError. *)
Lemma apply_rules_text_age_raises :
  wf_table text_age /\
  has_column text_age "Age" = true /\
  has_column text_age "Employment_Status" = true /\
  apply_rules text_age = Raise TypeError.
Proof.
  split; [solve_wf|]. repeat split.
Qed.

(* ================================================================== *)
(** ** Rule validation is idempotent *)

Section RulesIdempotent.
Context {R : Type} {NumR : Num R}.
Implicit Types (df : DataFrame R).

Lemma has_column_same_names df df' (name : string) :
  map fst (columns df') = map fst (columns df) ->
  has_column df' name = has_column df name.
Proof. unfold has_column, column_names. now intros ->. Qed.

(** C8: when [apply_rules] returns a table, applying it to that table
    finds no violation (or, the columns being absent, cannot apply the
    rule) and returns the table unchanged. *)
Theorem apply_rules_idempotent df df' (log : string) :
  apply_rules df = Ok (df', log) ->
  exists log',
    apply_rules df' = Ok (df', log') /\
    (log' = "No rule violations found." \/
     log' = "Could not apply age/employment rule: required columns not found.").
Proof.
  unfold apply_rules at 1.
  destruct (has_column df "Age" && has_column df "Employment_Status") eqn:Hc.
  2:{ intros [= <- _]. unfold apply_rules. rewrite Hc. eauto. }
  unfold getitem.
  destruct (get_column df "Age") as [age|] eqn:Ea; cbn [bind]; [|discriminate].
  destruct (lt_scalar age (of_nat 18)) as [m|] eqn:Elt; cbn [bind];
    [|discriminate].
  destruct (get_column df "Employment_Status") as [status|] eqn:Es; cbn [bind];
    [|discriminate].
  pose proof (lt_scalar_ok age m Elt) as ->.
  rewrite eq_scalar_str_employed, mask_and_map.
  destruct (index_where _ _) as [|l ls] eqn:Elabels.
  - (* nothing to correct: the same table is validated again *)
    intros [= <- _]. unfold apply_rules, getitem.
    rewrite Hc, Ea. cbn [bind]. rewrite Elt. cbn [bind]. rewrite Es. cbn [bind].
    rewrite eq_scalar_str_employed, mask_and_map, Elabels. eauto.
  - rewrite <- Elabels. clear l ls Elabels.
    set (mask := map _ (combine (cells age) (cells status))).
    set (labels := index_where (index df) mask).
    intros [= <- _].
    destruct (loc_set_str_cells df labels "Employment_Status" "Unemployed")
      as (written & Eget & Hcells).
    rewrite Es in Hcells.
    unfold apply_rules, getitem.
    assert (Hnames : map fst (columns (loc_set_str df labels
                                         "Employment_Status" "Unemployed"))
                     = map fst (columns df)).
    { apply loc_set_str_same_rows.
      eapply get_column_in_names; eassumption. }
    rewrite (has_column_same_names df _ "Age" Hnames),
      (has_column_same_names df _ "Employment_Status" Hnames), Hc.
    unfold loc_set_str at 1.
    rewrite get_set_column_other, Ea by discriminate. cbn [bind].
    rewrite Elt. cbn [bind]. rewrite Eget. cbn [bind].
    rewrite eq_scalar_str_employed, mask_and_map.
    rewrite index_where_nil; [eauto|].
    intros i Hi. simpl index in *. simpl cells.
    rewrite nth_error_map, nth_error_combine, Hcells.
    destruct (nth_error (index df) i) as [l0|] eqn:El; [|congruence].
    destruct (nth_error (cells age) i) as [a|] eqn:Eai; [|discriminate].
    destruct (nth_error (cells status) i) as [e|] eqn:Eei; [|discriminate].
    simpl.
    destruct (existsb (Nat.eqb l0) labels) eqn:Ex.
    + simpl. rewrite andb_false_r. discriminate.
    + intros Hv. injection Hv as Hv.
      assert (Hin : In l0 labels).
      { apply in_index_where. exists i. split; [assumption|].
        unfold mask. rewrite nth_error_map, nth_error_combine, Eai, Eei.
        simpl. now rewrite Hv. }
      apply existsb_eqb_in in Hin. congruence.
Qed.

End RulesIdempotent.

Lemma apply_rules_idempotent_witness :
  apply_rules survey
  = Ok (survey_validated,
        "Found 1 rule violation(s): Age < 18 and Employed. Correcting status to 'Unemployed'.")
  /\
  exists log',
    apply_rules survey_validated = Ok (survey_validated, log') /\
    (log' = "No rule violations found." \/
     log' = "Could not apply age/employment rule: required columns not found.").
Proof.
  split; [reflexivity|].
  apply (apply_rules_idempotent survey survey_validated
           "Found 1 rule violation(s): Age < 18 and Employed. Correcting status to 'Unemployed'.").
  reflexivity.
Defined.

(* ================================================================== *)
(** ** Estimation: what the loop records *)

Section EstimatesLoop.
Context {R : Type} {NumR : Num R}.
Implicit Types (df : DataFrame R) (summary : list (string * (R * R))).





End EstimatesLoop.

(* ================================================================== *)
(** ** Estimation with uniform weights, in exact arithmetic *)

Section UniformWeights.
Local Open Scope Q_scope.









End UniformWeights.



(* ================================================================== *)
(** ** Outlier capping and missing values *)

Section OutliersMissing.
Context {R : Type} {NumR : Num R}.
Implicit Types (df : DataFrame R) (vals : list (option R)).

Lemma present_observed vals : present (observed vals) = present vals.
Proof.
  unfold observed. induction (present vals) as [|x xs IH]; simpl;
    [reflexivity | now f_equal].
Qed.

Lemma quantile_observed (num den : nat) vals :
  quantile num den (observed vals) = quantile num den vals.
Proof. unfold quantile. now rewrite present_observed. Qed.

Lemma iqr_bounds_observed vals : iqr_bounds (observed vals) = iqr_bounds vals.
Proof. unfold iqr_bounds. now rewrite !quantile_observed. Qed.

Lemma is_outlier_missing (lower_bound upper_bound : option R) :
  is_outlier lower_bound upper_bound None = false.
Proof. unfold is_outlier, ogt, olt. now destruct upper_bound. Qed.

Lemma count_outliers_observed (lower_bound upper_bound : option R) vals :
  length (filter (is_outlier lower_bound upper_bound) (observed vals))
  = length (filter (is_outlier lower_bound upper_bound) vals).
Proof.
  unfold observed. induction vals as [|[x|] rest IH]; simpl.
  - reflexivity.
  - destruct (is_outlier lower_bound upper_bound (Some x)); simpl; now rewrite IH.
  - now rewrite is_outlier_missing.
Qed.

Lemma cap_map (lower_bound upper_bound : option R) vals :
  cap lower_bound upper_bound vals = map (cap_cell lower_bound upper_bound) vals.
Proof. unfold cap. now rewrite map_map. Qed.

Lemma cap_cell_missing (lower_bound upper_bound v : option R) :
  cap_cell lower_bound upper_bound v = None <-> v = None.
Proof.
  unfold cap_cell, ogt, olt.
  destruct v as [x|], lower_bound as [l|], upper_bound as [u|]; simpl;
    repeat match goal with
           | |- context [if ?b then _ else _] => destruct b; simpl
           end;
    split; congruence.
Qed.

Lemma present_cap_observed (lower_bound upper_bound : option R) vals :
  present (cap lower_bound upper_bound (observed vals))
  = present (cap lower_bound upper_bound vals).
Proof.
  rewrite !cap_map. unfold observed.
  induction vals as [|[x|] rest IH]; simpl.
  - reflexivity.
  - rewrite IH. reflexivity.
  - destruct (cap_cell lower_bound upper_bound None) eqn:E.
    + apply (f_equal (fun o => match o with Some _ => true | None => false end)) in E.
      assert (H : cap_cell lower_bound upper_bound None = None)
        by now apply cap_cell_missing.
      rewrite H in E. discriminate.
    + exact IH.
Qed.

Lemma same_missing_refl vals : same_missing vals vals.
Proof. split; [reflexivity | tauto]. Qed.

Lemma same_missing_trans vals1 vals2 vals3 :
  same_missing vals1 vals2 -> same_missing vals2 vals3 ->
  same_missing vals1 vals3.
Proof.
  intros (L1 & H1) (L2 & H2). split; [congruence|].
  intros i. now rewrite H1, H2.
Qed.

Lemma capped_values_same_missing vals : same_missing vals (capped_values vals).
Proof.
  unfold capped_values. destruct (iqr_bounds vals) as [lower_bound upper_bound].
  destruct (negb _); [|apply same_missing_refl].
  split; [apply cap_length|]. intros i. rewrite cap_map, nth_error_map.
  destruct (nth_error vals i) as [v|]; simpl; [|split; discriminate].
  pose proof (cap_cell_missing lower_bound upper_bound v) as H.
  split; intros [= E]; f_equal; now apply H.
Qed.

(** One visit of the loop, seen from the column it visits. *)
Lemma handle_outliers_col_numeric (method : string) df (msgs : list string)
  (col : string) vals :
  get_column df col = Some (NumCol vals) ->
  handle_outliers_col method (df, msgs) col
  = (set_column df col (NumCol (capped_values vals)),
     msgs ++ outlier_messages method col vals).
Proof.
  intros E. unfold handle_outliers_col, capped_values, outlier_messages.
  rewrite E. destruct (iqr_bounds vals) as [lower_bound upper_bound].
  destruct (negb _); [reflexivity|].
  f_equal. unfold set_column. rewrite assoc_set_id by exact E.
  now destruct df.
Qed.

Lemma handle_outliers_col_other (method : string) df (msgs : list string)
  (col : string) :
  (forall vals, get_column df col <> Some (NumCol vals)) ->
  handle_outliers_col method (df, msgs) col = (df, msgs).
Proof.
  intros H. unfold handle_outliers_col.
  destruct (get_column df col) as [[vals|vals]|]; try reflexivity.
  now destruct (H vals).
Qed.

(** The column named [c] after one visit of the loop. *)
Lemma handle_outliers_col_get (method : string) df (msgs : list string)
  (col c : string) :
  get_column (fst (handle_outliers_col method (df, msgs) col)) c
  = if String.eqb c col then option_map capped_column (get_column df c)
    else get_column df c.
Proof.
  destruct (get_column df col) as [[vals|vals]|] eqn:E.
  - rewrite (handle_outliers_col_numeric method df msgs col vals E). simpl fst.
    destruct (String.eqb_spec c col) as [->|Hne].
    + now rewrite get_set_column_same, E.
    + now apply get_set_column_other.
  - rewrite handle_outliers_col_other by (intros v; congruence). simpl.
    destruct (String.eqb_spec c col) as [->|Hne]; [now rewrite E | reflexivity].
  - rewrite handle_outliers_col_other by (intros v; congruence). simpl.
    destruct (String.eqb_spec c col) as [->|Hne]; [now rewrite E | reflexivity].
Qed.

Lemma handle_outliers_fold_missing (method : string) (cols : list string) :
  forall df (msgs : list string) (c : string) vals,
  get_column df c = Some (NumCol vals) ->
  exists vals',
    get_column (fst (fold_left (handle_outliers_col method) cols (df, msgs))) c
    = Some (NumCol vals') /\
    same_missing vals vals'.
Proof.
  induction cols as [|col rest IH]; intros df msgs c vals E; cbn [fold_left].
  - exists vals. split; [exact E | apply same_missing_refl].
  - pose proof (handle_outliers_col_get method df msgs col c) as Hget.
    destruct (handle_outliers_col method (df, msgs) col) as [df1 msgs1].
    simpl fst in Hget. rewrite E in Hget.
    destruct (String.eqb c col); simpl in Hget.
    + destruct (IH df1 msgs1 c _ Hget) as (vals' & E' & Hm).
      exists vals'. split; [exact E'|].
      eapply same_missing_trans; [apply capped_values_same_missing | exact Hm].
    + exact (IH df1 msgs1 c vals Hget).
Qed.

Lemma outlier_messages_observed (method col : string) vals :
  outlier_messages method col (observed vals) = outlier_messages method col vals.
Proof.
  unfold outlier_messages. rewrite iqr_bounds_observed.
  destruct (iqr_bounds vals) as [lower_bound upper_bound].
  now rewrite count_outliers_observed.
Qed.

Lemma present_capped_observed vals :
  present (capped_values (observed vals)) = present (capped_values vals).
Proof.
  unfold capped_values. rewrite iqr_bounds_observed.
  destruct (iqr_bounds vals) as [lower_bound upper_bound].
  rewrite count_outliers_observed.
  destruct (negb _); [apply present_cap_observed | apply present_observed].
Qed.

(** C10: [handle_outliers] leaves every missing cell of a numeric column
    missing (and no other cell becomes missing); a missing cell is never
    an outlier; and one visit of a numeric column writes the capped column
    and appends log lines such that the bounds, the log lines (hence the
    reported count) and the capped observed values are those computed
    from the column with its missing cells removed. *)
Theorem handle_outliers_ignores_missing df (cols : list string)
  (method : string) :
  (forall c vals,
     get_column df c = Some (NumCol vals) ->
     exists vals',
       get_column (fst (handle_outliers df cols method)) c
       = Some (NumCol vals') /\
       same_missing vals vals')
  /\
  (forall lower_bound upper_bound : option R,
     is_outlier lower_bound upper_bound None = false)
  /\
  (forall (msgs : list string) (col : string) vals,
     get_column df col = Some (NumCol vals) ->
     handle_outliers_col method (df, msgs) col
     = (set_column df col (NumCol (capped_values vals)),
        msgs ++ outlier_messages method col vals)
     /\ iqr_bounds vals = iqr_bounds (observed vals)
     /\ outlier_messages method col vals
        = outlier_messages method col (observed vals)
     /\ present (capped_values vals) = present (capped_values (observed vals))).
Proof.
  split; [|split].
  - intros c vals E. unfold handle_outliers.
    destruct (handle_outliers_fold_missing method
                (filter (has_column df) cols) df [] c vals E)
      as (vals' & E' & Hm).
    destruct (fold_left _ _ _) as [df1 msgs1]. simpl in *. eauto.
  - apply is_outlier_missing.
  - intros msgs col vals E. split; [|split; [|split]].
    + now apply handle_outliers_col_numeric.
    + symmetry. apply iqr_bounds_observed.
    + symmetry. apply outlier_messages_observed.
    + symmetry. apply present_capped_observed.
Qed.

End OutliersMissing.

Lemma handle_outliers_ignores_missing_witness :
  get_column one_outlier "x"
  = Some (NumCol [qz 1; qz 2; None; qz 3; qz 4; qz 100]) /\
  fst (handle_outliers one_outlier ["x"] "IQR") = one_outlier_capped /\
  (exists vals',
     get_column (fst (handle_outliers one_outlier ["x"] "IQR")) "x"
     = Some (NumCol vals') /\
     same_missing [qz 1; qz 2; None; qz 3; qz 4; qz 100] vals') /\
  iqr_bounds [qz 1; qz 2; None; qz 3; qz 4; qz 100]
  = iqr_bounds [qz 1; qz 2; qz 3; qz 4; qz 100] /\
  outlier_messages "IQR" "x" [qz 1; qz 2; None; qz 3; qz 4; qz 100]
  = outlier_messages "IQR" "x" [qz 1; qz 2; qz 3; qz 4; qz 100].
Proof.
  split; [reflexivity|]. split; [reflexivity|].
  pose proof (handle_outliers_ignores_missing one_outlier ["x"] "IQR")
    as (Hmissing & _ & Hvisit).
  split.
  - apply Hmissing. reflexivity.
  - destruct (Hvisit [] "x" [qz 1; qz 2; None; qz 3; qz 4; qz 100] eq_refl)
      as (_ & Hb & Hm & _).
    split; [exact Hb | exact Hm].
Defined.

(* ================================================================== *)
(** ** Quartiles and bounds, in exact arithmetic *)

Section ExactOrder.
Local Open Scope Q_scope.
Implicit Types (x y : Q) (s : list Q) (vals : list (option Q)).

Lemma Qltb_lt x y : Qltb x y = true <-> x < y.
Proof.
  unfold Qltb. rewrite negb_true_iff. split.
  - intros H. apply Qnot_le_lt. intros Hle.
    apply Qle_bool_iff in Hle. congruence.
  - intros H. destruct (Qle_bool y x) eqn:E; [|reflexivity].
    apply Qle_bool_iff in E. exfalso. apply (Qlt_not_le _ _ H E).
Qed.

Lemma Qltb_ge x y : Qltb x y = false <-> y <= x.
Proof.
  unfold Qltb. rewrite negb_false_iff. apply Qle_bool_iff.
Qed.

Lemma insert_sorted_in x y s :
  In y (insert_sorted x s) <-> y = x \/ In y s.
Proof.
  induction s as [|z s IH]; cbn [insert_sorted].
  - simpl. intuition.
  - destruct (nleb x z); cbn [In]; [intuition | rewrite IH; intuition].
Qed.

Lemma insert_sorted_sorted x s :
  StronglySorted Qle s -> StronglySorted Qle (insert_sorted x s).
Proof.
  induction 1 as [|z s Hs IH Hz]; cbn [insert_sorted].
  - repeat constructor.
  - destruct (nleb x z) eqn:E; cbn [nleb Exact] in E.
    + apply Qle_bool_iff in E. constructor; [now constructor|].
      constructor; [assumption|].
      rewrite Forall_forall in *. intros w Hw.
      apply Qle_trans with z; auto.
    + constructor; [assumption|].
      rewrite Forall_forall in *. intros w Hw.
      apply insert_sorted_in in Hw. destruct Hw as [->|Hw]; [|auto].
      assert (Qltb z x = true) by (unfold Qltb; now rewrite E).
      apply Qlt_le_weak. now apply Qltb_lt.
Qed.

Lemma sort_sorted s : StronglySorted Qle (sort s).
Proof.
  induction s as [|x s IH]; cbn [sort fold_right];
    [constructor | now apply insert_sorted_sorted].
Qed.

Lemma insert_sorted_length x s :
  length (insert_sorted x s) = S (length s).
Proof.
  induction s as [|z s IH]; cbn [insert_sorted]; [reflexivity|].
  destruct (nleb x z); cbn [length]; [reflexivity | now rewrite IH].
Qed.

Lemma sort_length s : length (sort s) = length s.
Proof.
  induction s as [|x s IH]; cbn [sort fold_right length]; [reflexivity|].
  fold (sort s). now rewrite insert_sorted_length, IH.
Qed.

Lemma sorted_nth s (d : Q) :
  StronglySorted Qle s ->
  forall i j, (i <= j)%nat -> (j < length s)%nat -> nth i s d <= nth j s d.
Proof.
  induction 1 as [|z s Hs IH Hz]; intros i j Hij Hj; simpl in Hj; [lia|].
  destruct i as [|i], j as [|j]; simpl; try lia.
  - apply Qle_refl.
  - rewrite Forall_forall in Hz. apply Hz, nth_In. lia.
  - apply IH; lia.
Qed.

(** Both branches of numpy's interpolation compute [a + (b - a) t]. *)
Lemma lerp_exact (a b t : Q) : lerp a b t == a + (b - a) * t.
Proof.
  unfold lerp. cbn [nleb nsub nmul nadd ndiv of_nat Exact].
  destruct (Qle_bool _ t); rewrite !Qred_correct.
  - change (inject_Z (Z.of_nat 1)) with 1. ring.
  - ring.
Qed.

(** The fractional part of the virtual index, a number of quarters. *)
Lemma gamma_exact (r : nat) :
  ndiv (of_nat r) (of_nat 4) == inject_Z (Z.of_nat r) * (1 # 4).
Proof.
  cbn [ndiv of_nat Exact]. rewrite Qred_correct. reflexivity.
Qed.

Lemma lerp_between (a b : Q) (r : nat) :
  a <= b -> (r < 4)%nat ->
  a <= lerp a b (ndiv (of_nat r) (of_nat 4)) <= b.
Proof.
  intros Hab Hr. rewrite lerp_exact, gamma_exact.
  assert (H0 : 0 <= inject_Z (Z.of_nat r)).
  { change 0 with (inject_Z 0). rewrite <- Zle_Qle. lia. }
  assert (H4 : inject_Z (Z.of_nat r) <= 4).
  { change 4 with (inject_Z 4). rewrite <- Zle_Qle. lia. }
  split; nra.
Qed.

Lemma lerp_monotone (a b : Q) (r1 r3 : nat) :
  a <= b -> (r1 <= r3)%nat ->
  lerp a b (ndiv (of_nat r1) (of_nat 4))
  <= lerp a b (ndiv (of_nat r3) (of_nat 4)).
Proof.
  intros Hab Hr. rewrite !lerp_exact, !gamma_exact.
  assert (H : inject_Z (Z.of_nat r1) <= inject_Z (Z.of_nat r3)).
  { rewrite <- Zle_Qle. lia. }
  nra.
Qed.

(** On a sorted non-empty array, the value interpolated at the virtual
    index [(n-1)/4] is at most the one at [3(n-1)/4]. *)
Lemma quartile_values_ordered s (x : Q) (n p1 p3 lo1 lo3 hi1 hi3 : nat) :
  StronglySorted Qle s -> n = length s -> (1 <= n)%nat ->
  p1 = ((n - 1) * 1)%nat -> p3 = ((n - 1) * 3)%nat ->
  lo1 = (p1 / 4)%nat -> lo3 = (p3 / 4)%nat ->
  hi1 = Nat.min (lo1 + 1) (n - 1) -> hi3 = Nat.min (lo3 + 1) (n - 1) ->
  lerp (nth lo1 s x) (nth hi1 s x) (ndiv (of_nat (p1 mod 4)) (of_nat 4))
  <= lerp (nth lo3 s x) (nth hi3 s x) (ndiv (of_nat (p3 mod 4)) (of_nat 4)).
Proof.
  intros Hs Hlen Hn Hp1 Hp3 Hl1 Hl3 Hh1 Hh3.
  pose proof (Nat.div_mod_eq p1 4) as D1. pose proof (Nat.div_mod_eq p3 4) as D3.
  pose proof (Nat.mod_upper_bound p1 4 ltac:(lia)) as M1.
  pose proof (Nat.mod_upper_bound p3 4 ltac:(lia)) as M3.
  rewrite <- Hl1 in D1. rewrite <- Hl3 in D3.
  assert (Hlo1 : (lo1 <= hi1 < n)%nat) by lia.
  assert (Hlo3 : (lo3 <= hi3 < n)%nat) by lia.
  assert (A1 : nth lo1 s x <= nth hi1 s x) by (apply (sorted_nth s x Hs); lia).
  assert (A3 : nth lo3 s x <= nth hi3 s x) by (apply (sorted_nth s x Hs); lia).
  pose proof (lerp_between _ _ (p1 mod 4) A1 M1) as B1.
  pose proof (lerp_between _ _ (p3 mod 4) A3 M3) as B3.
  destruct (Nat.eq_dec lo1 lo3) as [Heq|Hneq].
  - assert (Hhi : hi1 = hi3) by lia.
    rewrite <- Heq, <- Hhi.
    apply lerp_monotone; [exact A1 | lia].
  - assert (Hlt : (hi1 <= lo3)%nat) by lia.
    apply Qle_trans with (nth hi1 s x); [apply B1|].
    apply Qle_trans with (nth lo3 s x); [|apply B3].
    apply (sorted_nth s x Hs); lia.
Qed.

(** The first quartile is at most the third. *)
Lemma quartiles_ordered vals (q1 q3 : Q) :
  quantile 1 4 vals = Some q1 -> quantile 3 4 vals = Some q3 -> q1 <= q3.
Proof.
  unfold quantile.
  pose proof (sort_sorted (present vals)) as Hs.
  destruct (sort (present vals)) as [|x tl] eqn:E; [discriminate|].
  intros H1 H3. injection H1 as <-. injection H3 as <-.
  apply (quartile_values_ordered (x :: tl) x (length (x :: tl)));
    try reflexivity; [exact Hs | simpl; lia].
Qed.

Lemma quantile_none (num den : nat) vals :
  quantile num den vals = None <-> present vals = [].
Proof.
  unfold quantile. pose proof (sort_length (present vals)) as Hl.
  destruct (sort (present vals)) as [|x tl]; split; intros H;
    try discriminate; try reflexivity.
  - destruct (present vals); [reflexivity | discriminate].
  - rewrite H in Hl. discriminate.
Qed.

(** The bounds of a column: absent together (no observed value), or two
    numbers with the lower one at most the upper one. *)
Lemma iqr_bounds_cases vals :
  iqr_bounds vals = (None, None) \/
  exists lb ub, iqr_bounds vals = (Some lb, Some ub) /\ lb <= ub.
Proof.
  unfold iqr_bounds.
  destruct (quantile 1 4 vals) as [q1|] eqn:E1.
  - destruct (quantile 3 4 vals) as [q3|] eqn:E3.
    + right. pose proof (quartiles_ordered vals q1 q3 E1 E3) as Hq.
      cbn [olift2]. eexists _, _. split; [reflexivity|].
      cbn [nsub nadd nmul ndiv of_nat Exact]. rewrite !Qred_correct.
      change (inject_Z (Z.of_nat 3) / inject_Z (Z.of_nat 2)) with (3 # 2).
      nra.
    + apply quantile_none in E3. apply (quantile_none 1 4) in E3. congruence.
  - left. destruct (quantile 3 4 vals) as [q3|] eqn:E3; [|reflexivity].
    apply quantile_none in E1. apply (quantile_none 3 4) in E1. congruence.
Qed.

End ExactOrder.

(* ================================================================== *)
(** ** Outlier capping: bounds and a second pass *)

Section SecondPass.
Context {R : Type} {NumR : Num R}.
Implicit Types (df : DataFrame R) (vals : list (option R)).

(** With distinct names, each visited column is capped once, from its
    values in the input table; the other columns are not touched. *)
Lemma handle_outliers_fold_get (method : string) (cols : list string) :
  NoDup cols ->
  forall df (msgs : list string) (c : string),
  get_column (fst (fold_left (handle_outliers_col method) cols (df, msgs))) c
  = if existsb (String.eqb c) cols
    then option_map capped_column (get_column df c)
    else get_column df c.
Proof.
  induction 1 as [|col rest Hnotin Hnd IH]; intros df msgs c;
    cbn [fold_left existsb]; [reflexivity|].
  pose proof (handle_outliers_col_get method df msgs col c) as Hget.
  destruct (handle_outliers_col method (df, msgs) col) as [df1 msgs1].
  simpl fst in Hget. rewrite IH, Hget.
  destruct (String.eqb_spec c col) as [->|Hne]; [|reflexivity].
  cbn [orb].
  destruct (existsb (String.eqb col) rest) eqn:Ex; [|reflexivity].
  exfalso. apply Hnotin. apply existsb_exists in Ex.
  destruct Ex as (y & Hy & Ey). apply String.eqb_eq in Ey. now subst.
Qed.


Lemma existsb_eqb_in_str (c : string) (cols : list string) :
  existsb (String.eqb c) cols = true <-> In c cols.
Proof.
  rewrite existsb_exists. split.
  - intros (y & Hy & E). apply String.eqb_eq in E. now subst.
  - intros H. exists c. split; [assumption | apply String.eqb_refl].
Qed.

(** A selected numeric column of the input is, in the output, capped. *)
Lemma handle_outliers_get_selected df (cols : list string) (method c : string)
  vals :
  NoDup cols -> In c cols -> get_column df c = Some (NumCol vals) ->
  get_column (fst (handle_outliers df cols method)) c
  = Some (NumCol (capped_values vals)).
Proof.
  intros Hnd Hin E. unfold handle_outliers.
  pose proof (handle_outliers_fold_get method (filter (has_column df) cols)
                (NoDup_filter _ Hnd) df [] c) as Hget.
  destruct (fold_left _ _ _) as [df1 msgs1]. simpl in *.
  rewrite Hget, E.
  replace (existsb (String.eqb c) (filter (has_column df) cols)) with true;
    [reflexivity|].
  symmetry. apply existsb_eqb_in_str, filter_In. split; [assumption|].
  apply has_column_true. eauto.
Qed.

End SecondPass.

Section ExactCapping.
Local Open Scope Q_scope.
Implicit Types (vals : list (option Q)).

Lemma is_outlier_exact (lb ub x : Q) :
  is_outlier (Some lb) (Some ub) (Some x) = false <-> lb <= x <= ub.
Proof.
  unfold is_outlier, ogt, olt. cbn [nltb Exact].
  rewrite orb_false_iff, !Qltb_ge. tauto.
Qed.


Lemma filter_nil_length {A : Type} (f : A -> bool) (l : list A) :
  Nat.eqb (length (filter f l)) 0 = true <-> forall a, In a l -> f a = false.
Proof.
  rewrite Nat.eqb_eq. split.
  - intros H a Ha. destruct (f a) eqn:E; [|reflexivity].
    assert (Hin : In a (filter f l)) by (apply filter_In; now split).
    destruct (filter f l); [destruct Hin | discriminate].
  - intros H. induction l as [|a l IH]; [reflexivity|]. simpl.
    rewrite (H a (or_introl eq_refl)). apply IH. intros b Hb. apply H. now right.
Qed.





End ExactCapping.



(** The same two passes on float64 data: every number involved is a
    binary64 number, and the second pass caps again. *)
Lemma handle_outliers_binary64_two_passes :
  get_column (fst (handle_outliers skewed_binary64 ["x"] "IQR")) "x"
  = Some (NumCol [Some 37.5%float; Some 100%float; Some 100%float;
                  Some 100%float]) /\
  get_column
    (fst (handle_outliers (fst (handle_outliers skewed_binary64 ["x"] "IQR"))
            ["x"] "IQR")) "x"
  = Some (NumCol [Some 60.9375%float; Some 100%float; Some 100%float;
                  Some 100%float]).
Proof. split; vm_compute; reflexivity. Qed.

(* ================================================================== *)
(** ** Selections without numeric columns *)

Section NothingSelected.
Context {R : Type} {NumR : Num R}.
Variable knn : nat -> list (list (option R)) -> result (list (list (option R))).
Implicit Types (df : DataFrame R).

Lemma getitem_list_objects df (cols : list string) :
  (forall c, In c cols -> exists vals, get_column df c = Some (ObjCol vals)) ->
  exists sel, getitem_list df cols = Ok sel /\ select_numeric sel = [].
Proof.
  induction cols as [|c rest IH]; intros H; cbn [getitem_list].
  - exists []. now split.
  - destruct (H c (or_introl eq_refl)) as (vals & ->).
    destruct IH as (sel & -> & Hs); [intros; apply H; now right|].
    cbn [bind]. eexists. split; [reflexivity|]. exact Hs.
Qed.

(** The stages degrade gracefully on a selection that holds no numeric
    column (the empty selection included): imputation, when every selected
    name is a non-numeric column of the table, and outlier handling, when
    no selected name is a numeric column of the table (names that are not
    columns are allowed), return the table unchanged with their fallback
    log line. *)
Theorem no_numeric_column_selected df (cols : list string) (method : string) :
  ((forall c, In c cols -> exists vals, get_column df c = Some (ObjCol vals)) ->
   impute_missing_values knn df cols method
   = Ok (df, "No numeric columns selected for imputation."))
  /\
  ((forall c vals, In c cols -> get_column df c <> Some (NumCol vals)) ->
   handle_outliers df cols method
   = (df, "No numeric columns selected for outlier handling.")).
Proof.
  split.
  - intros H. unfold impute_missing_values.
    destruct (getitem_list_objects df cols H) as (sel & -> & Hs).
    cbn [bind]. now rewrite Hs.
  - intros H. unfold handle_outliers.
    assert (Hfold : forall (l : list string) (msgs : list string),
               (forall c, In c l -> In c cols) ->
               fold_left (handle_outliers_col method) l (df, msgs) = (df, msgs)).
    { induction l as [|c l IH]; intros msgs Hl; cbn [fold_left]; [reflexivity|].
      rewrite handle_outliers_col_other.
      - apply IH. intros; apply Hl; now right.
      - intros vals. apply H, Hl. now left. }
    rewrite Hfold; [reflexivity|].
    intros c Hc. apply filter_In in Hc. tauto.
Qed.

End NothingSelected.

Lemma no_numeric_column_selected_witness :
  (forall knn,
     impute_missing_values knn survey ["Employment_Status"] "Mean"
     = Ok (survey, "No numeric columns selected for imputation.")) /\
  handle_outliers survey ["Employment_Status"; "Income"] "IQR"
  = (survey, "No numeric columns selected for outlier handling.").
Proof.
  split.
  - intros knn.
    apply (proj1 (no_numeric_column_selected knn survey ["Employment_Status"]
                    "Mean")).
    intros c [<-|[]]. eexists. reflexivity.
  - apply (proj2 (no_numeric_column_selected (fun _ _ => Raise ValueError)
                    survey ["Employment_Status"; "Income"] "IQR")).
    intros c vals [<-|[<-|[]]]; discriminate.
Defined.

(* ================================================================== *)
(** ** More on imputation by mean or median *)

Section ImputeMore.
Context {R : Type} {NumR : Num R}.
Variable knn : nat -> list (list (option R)) -> result (list (list (option R))).
Implicit Types (df : DataFrame R) (vals : list (option R)).

(** What the stage returns for a non-empty selection of numeric columns
    that all hold an observed value. *)
Lemma impute_simple_result df (cols : list string) (method : string)
  (s : strategy) :
  wf_table df -> strategy_of method = Some s -> cols <> [] ->
  (forall c, In c cols ->
     exists vals, get_column df c = Some (NumCol vals) /\ present vals <> []) ->
  impute_missing_values knn df cols method
  = Ok (assign_columns df cols (imputed_block s df cols),
        ("Imputed missing values in columns " ++ repr_list cols
         ++ " using " ++ method ++ ".")%string).
Proof.
  intros (_ & _ & Hlen) Hmethod Hne Hcols.
  assert (Hnum : forall n, In n cols ->
                   exists vals, get_column df n = Some (NumCol vals)).
  { intros n Hn. destruct (Hcols n Hn) as (vals & E & _). eauto. }
  unfold impute_missing_values.
  destruct (getitem_list_present df cols) as (sel & Esel).
  { intros n Hn. destruct (Hnum n Hn) as (vals & E). eauto. }
  rewrite Esel. cbn [bind].
  destruct (getitem_list_ok df cols sel Esel) as (Hnames & Hsel).
  assert (Hselnum : select_numeric sel = cols).
  { rewrite select_numeric_all; [assumption|].
    rewrite Forall_forall in *. intros [n c] Hin. simpl.
    specialize (Hsel _ Hin). simpl in Hsel.
    destruct (Hnum n) as (vals & E).
    - rewrite <- Hnames. apply in_map_iff. exists (n, c). now split.
    - rewrite E in Hsel. now injection Hsel as <-. }
  rewrite Hselnum.
  destruct cols as [|c0 rest] eqn:Ecols; [contradiction|].
  rewrite <- Ecols in *. clear Hselnum.
  set (imp := if String.eqb method "Mean" then SimpleImputer strategy_mean
              else if String.eqb method "KNN" then KNNImputer 5
              else SimpleImputer strategy_median).
  assert (Himp : imp = SimpleImputer s).
  { subst imp. unfold strategy_of in Hmethod.
    destruct (String.eqb method "Mean"); [congruence|].
    destruct (String.eqb method "KNN"); congruence. }
  rewrite Himp. clear imp Himp. cbn [fit_transform].
  rewrite numeric_block_all by assumption.
  assert (Hrows : forall n vals, In n cols ->
                    get_column df n = Some (NumCol vals) ->
                    length vals = length (index df)).
  { intros n vals _ E. apply assoc_in in E.
    rewrite Forall_forall in Hlen. exact (Hlen _ E). }
  rewrite simple_fit_transform_all; cycle 1.
  { destruct (Hcols c0) as (vals & E & Hp); [rewrite Ecols; now left|].
    assert (Hl : length vals = length (index df)).
    { apply (Hrows c0); [rewrite Ecols; now left | assumption]. }
    pose proof (present_length vals). destruct (present vals); [contradiction|].
    simpl in *. lia. }
  { apply Forall_forall. intros vals Hin. apply in_map_iff in Hin.
    destruct Hin as (n & <- & Hn). destruct (Hcols n Hn) as (v & E & Hp).
    unfold values_of. now rewrite E. }
  cbn [bind]. unfold setitem_block. rewrite !length_map, Nat.eqb_refl.
  cbn [negb].
  match goal with
  | |- context [forallb ?f ?l] => replace (forallb f l) with true
  end; cycle 1.
  { symmetry. apply forallb_forall. intros filled Hin.
    apply in_map_iff in Hin. destruct Hin as (vals & <- & Hin).
    apply in_map_iff in Hin. destruct Hin as (n & <- & Hn).
    destruct (Hnum n Hn) as (v & E).
    rewrite fill_length. unfold values_of. rewrite E.
    apply Nat.eqb_eq. now apply (Hrows n). }
  cbn [negb bind]. unfold imputed_block. now rewrite map_map.
Qed.

Lemma fill_complete (stat : R) vals : ~ In None (fill stat vals).
Proof.
  unfold fill. intros H. apply in_map_iff in H.
  destruct H as ([x|] & E & _); discriminate.
Qed.

Lemma fill_already_complete (stat : R) vals :
  ~ In None vals -> fill stat vals = vals.
Proof.
  induction vals as [|[x|] rest IH]; simpl; intros H.
  - reflexivity.
  - f_equal. apply IH. tauto.
  - exfalso. apply H. now left.
Qed.

Lemma present_fill_nonempty (stat : R) vals :
  vals <> [] -> present (fill stat vals) <> [].
Proof. destruct vals as [|[x|] rest]; simpl; [tauto | discriminate..]. Qed.

(** The column of a selected name after the write-back. *)
Lemma imputed_block_get df (cols : list string) (s : strategy) (c : string) vals :
  NoDup cols -> In c cols ->
  (forall n, In n cols -> exists v, get_column df n = Some (NumCol v)) ->
  get_column df c = Some (NumCol vals) ->
  get_column (assign_columns df cols (imputed_block s df cols)) c
  = Some (NumCol (fill (stat_value s (present vals)) vals)).
Proof.
  intros Hnd Hin Hnum E.
  destruct (assign_columns_spec cols (imputed_block s df cols) df)
    as (_ & _ & _ & Hs).
  - unfold imputed_block. now rewrite length_map.
  - assumption.
  - intros n Hn. destruct (Hnum n Hn) as (v & Ev).
    eapply get_column_in_names; eassumption.
  - destruct (In_nth_error _ _ Hin) as (i & Hi).
    apply (Hs i); [assumption|].
    unfold imputed_block. rewrite nth_error_map, Hi. simpl.
    unfold values_of. now rewrite E.
Qed.


Lemma assign_columns_current (names : list string) :
  forall df,
  (forall n, In n names -> exists v, get_column df n = Some (NumCol v)) ->
  assign_columns df names (map (values_of df) names) = df.
Proof.
  induction names as [|n names IH]; intros df H; [reflexivity|].
  cbn [map assign_columns].
  destruct (H n (or_introl eq_refl)) as (v & E).
  assert (Hset : set_column df n (NumCol (values_of df n)) = df).
  { unfold values_of. rewrite E. unfold set_column.
    rewrite assoc_set_id by exact E. now destruct df. }
  rewrite Hset. apply IH. intros m Hm. apply H. now right.
Qed.

(** X3: imputation by mean or median is idempotent: imputing the imputed
    table again, with the same selection and method, returns that table
    and the same log line. *)
Theorem impute_idempotent df (cols : list string) (method : string)
  (s : strategy) df' (log : string) :
  wf_table df -> NoDup cols -> strategy_of method = Some s ->
  (forall c, In c cols ->
     exists vals, get_column df c = Some (NumCol vals) /\ present vals <> []) ->
  impute_missing_values knn df cols method = Ok (df', log) ->
  impute_missing_values knn df' cols method = Ok (df', log).
Proof.
  intros Hwf Hnd Hm Hcols H.
  destruct cols as [|c0 rest] eqn:Ecols.
  { cbn in H. injection H as <- <-. reflexivity. }
  rewrite <- Ecols in *.
  assert (Hne : cols <> []) by (rewrite Ecols; discriminate).
  assert (Hnum : forall n, In n cols ->
                   exists v, get_column df n = Some (NumCol v)).
  { intros n Hn. destruct (Hcols n Hn) as (v & Ev & _). eauto. }
  rewrite (impute_simple_result df cols method s Hwf Hm Hne Hcols) in H.
  injection H as <- <-.
  set (df' := assign_columns df cols (imputed_block s df cols)).
  assert (Hget : forall c, In c cols ->
            exists vals, get_column df c = Some (NumCol vals) /\
                         present vals <> [] /\
                         get_column df' c
                         = Some (NumCol (fill (stat_value s (present vals)) vals))).
  { intros c Hc. destruct (Hcols c Hc) as (vals & E & Hp).
    exists vals. split; [exact E|]. split; [exact Hp|].
    now apply imputed_block_get. }
  assert (Hwf' : wf_table df').
  { apply (same_rows_assign_columns cols (imputed_block s df cols) df);
      [| |exact Hwf].
    - intros n Hn. destruct (Hnum n Hn) as (v & Ev).
      eapply get_column_in_names; eassumption.
    - apply Forall_forall. intros filled Hin. unfold imputed_block in Hin.
      apply in_map_iff in Hin. destruct Hin as (n & <- & Hn).
      destruct (Hnum n Hn) as (v & Ev). rewrite fill_length.
      unfold values_of. rewrite Ev.
      exact (wf_column_length df n _ Hwf Ev). }
  rewrite (impute_simple_result df' cols method s Hwf' Hm Hne).
  - f_equal. f_equal.
    replace (imputed_block s df' cols) with (map (values_of df') cols).
    + apply assign_columns_current. intros n Hn.
      destruct (Hget n Hn) as (v & _ & _ & E'). eauto.
    + unfold imputed_block. apply map_ext_in. intros c Hc.
      destruct (Hget c Hc) as (v & _ & _ & E').
      unfold values_of. rewrite E'. symmetry.
      apply fill_already_complete, fill_complete.
  - intros c Hc. destruct (Hget c Hc) as (v & E & Hp & E').
    eexists. split; [exact E'|]. apply present_fill_nonempty.
    intros ->. now apply Hp.
Qed.

(** X4: on a table without rows, imputation by mean or median raises
    ValueError as soon as the selection, made of columns of the table,
    holds a numeric one: scikit-learn rejects an array without samples. *)
Theorem impute_no_rows_raises df (cols : list string) (method : string)
  (s : strategy) (c : string) vals :
  index df = [] -> strategy_of method = Some s ->
  (forall n, In n cols -> has_column df n = true) ->
  In c cols -> get_column df c = Some (NumCol vals) ->
  impute_missing_values knn df cols method = Raise ValueError.
Proof.
  intros Hidx Hm Hall Hin E. unfold impute_missing_values.
  destruct (getitem_list_present df cols) as (sel & Esel).
  { intros n Hn. now apply has_column_true, Hall. }
  rewrite Esel. cbn [bind].
  destruct (getitem_list_ok df cols sel Esel) as (Hnames & Hsel).
  destruct (select_numeric sel) as [|n0 rest] eqn:Enum.
  { exfalso. assert (Hc : In (c, NumCol vals) sel).
    { rewrite <- Hnames in Hin. apply in_map_iff in Hin.
      destruct Hin as ([n col] & Hn & Hin). simpl in Hn. subst n.
      rewrite Forall_forall in Hsel. specialize (Hsel _ Hin). simpl in Hsel.
      rewrite E in Hsel. now injection Hsel as <-. }
    assert (Hn : In c (select_numeric sel)).
    { unfold select_numeric. apply in_map_iff. exists (c, NumCol vals).
      split; [reflexivity|]. apply filter_In. now split. }
    rewrite Enum in Hn. destruct Hn. }
  unfold strategy_of in Hm. rewrite Hidx.
  destruct (String.eqb method "Mean"); [reflexivity|].
  destruct (String.eqb method "KNN"); [discriminate | reflexivity].
Qed.

End ImputeMore.


Lemma impute_idempotent_witness :
  wf_table survey /\ NoDup ["Age"] /\
  forall knn,
    impute_missing_values knn survey ["Age"] "Median"
    = Ok (survey_imputed,
          "Imputed missing values in columns ['Age'] using Median.") /\
    impute_missing_values knn survey_imputed ["Age"] "Median"
    = Ok (survey_imputed,
          "Imputed missing values in columns ['Age'] using Median.").
Proof.
  split; [solve_wf|]. split; [solve_nodup|].
  intros knn. split; [reflexivity|].
  apply (impute_idempotent knn survey ["Age"] "Median" strategy_median).
  - solve_wf.
  - solve_nodup.
  - reflexivity.
  - simpl. intros c [<-|[]]; eexists; (split; [reflexivity | discriminate]).
  - reflexivity.
Defined.

Lemma impute_no_rows_raises_witness :
  index no_rows = [] /\
  get_column no_rows "x" = Some (NumCol []) /\
  forall knn, impute_missing_values knn no_rows ["x"] "Mean" = Raise ValueError.
Proof.
  split; [reflexivity|]. split; [reflexivity|].
  intros knn.
  apply (impute_no_rows_raises knn no_rows ["x"] "Mean" strategy_mean "x" []).
  - reflexivity.
  - reflexivity.
  - intros n [<-|[]]. reflexivity.
  - simpl; tauto.
  - reflexivity.
Defined.

(* ================================================================== *)
(** ** Imputed values stay within the observed range *)

Section ImputeRange.
Local Open Scope Q_scope.
Variable knn : nat -> list (list (option Q)) -> result (list (list (option Q))).
Implicit Types (xs : list Q) (vals : list (option Q)).







End ImputeRange.


(* ================================================================== *)
(** ** More on outlier capping *)

Section OutliersFrame.
Context {R : Type} {NumR : Num R}.
Implicit Types (df : DataFrame R).

Lemma handle_outliers_fold_frame (method : string) (cols : list string) :
  forall df (msgs : list string) (c : string),
  ~ In c cols \/ (forall vals, get_column df c <> Some (NumCol vals)) ->
  get_column (fst (fold_left (handle_outliers_col method) cols (df, msgs))) c
  = get_column df c.
Proof.
  induction cols as [|col rest IH]; intros df msgs c H; cbn [fold_left];
    [reflexivity|].
  pose proof (handle_outliers_col_get method df msgs col c) as Hget.
  destruct (handle_outliers_col method (df, msgs) col) as [df1 msgs1].
  simpl fst in Hget.
  assert (Hsame : get_column df1 c = get_column df c).
  { rewrite Hget. destruct (String.eqb_spec c col) as [->|Hne]; [|reflexivity].
    destruct H as [H|H]; [exfalso; apply H; now left|].
    destruct (get_column df col) as [[vals|vals]|]; try reflexivity.
    now destruct (H vals). }
  rewrite IH; [exact Hsame|].
  destruct H as [H|H]; [left; intros Hc; apply H; now right|].
  right. intros vals. rewrite Hsame. apply H.
Qed.

(** X6: [handle_outliers] touches nothing but the selected numeric
    columns: a column that is not selected, or that is not numeric, is
    the same in the output as in the input. *)
Theorem handle_outliers_frame df (cols : list string) (method c : string) :
  ~ In c cols \/ (forall vals, get_column df c <> Some (NumCol vals)) ->
  get_column (fst (handle_outliers df cols method)) c = get_column df c.
Proof.
  intros H. unfold handle_outliers.
  pose proof (handle_outliers_fold_frame method (filter (has_column df) cols)
                df [] c) as Hf.
  destruct (fold_left _ _ _) as [df1 msgs1]. apply Hf.
  destruct H as [H|H]; [left | now right].
  intros Hc. apply filter_In in Hc. tauto.
Qed.

End OutliersFrame.

Lemma handle_outliers_frame_witness :
  ~ In "Design_Weight" ["Age"; "Employment_Status"] /\
  get_column (fst (handle_outliers survey ["Age"; "Employment_Status"] "IQR"))
    "Design_Weight"
  = get_column survey "Design_Weight" /\
  get_column (fst (handle_outliers survey ["Age"; "Employment_Status"] "IQR"))
    "Employment_Status"
  = get_column survey "Employment_Status".
Proof.
  split; [simpl; intuition discriminate|]. split.
  - apply handle_outliers_frame. left. simpl; intuition discriminate.
  - apply handle_outliers_frame. right. intros vals. discriminate.
Defined.

Section Winsorize.
Local Open Scope Q_scope.
Implicit Types (vals : list (option Q)).

Lemma clamp_cases (lb ub x : Q) :
  lb <= ub ->
  (x < lb /\ clamp lb ub x = lb) \/
  (ub < x /\ clamp lb ub x = ub) \/
  (lb <= x <= ub /\ clamp lb ub x = x).
Proof.
  intros Hle. unfold clamp.
  destruct (Qltb x lb) eqn:E1.
  - left. split; [now apply Qltb_lt | reflexivity].
  - apply Qltb_ge in E1. destruct (Qltb ub x) eqn:E2.
    + right; left. split; [now apply Qltb_lt | reflexivity].
    + apply Qltb_ge in E2. right; right. now repeat split.
Qed.

Lemma cap_cell_clamp (lb ub : Q) (v : option Q) :
  lb <= ub ->
  cap_cell (Some lb) (Some ub) v = option_map (clamp lb ub) v.
Proof.
  intros Hle. destruct v as [x|]; [|reflexivity].
  unfold cap_cell, ogt, olt, clamp. cbn [nltb Exact option_map].
  destruct (Qltb x lb) eqn:E1.
  - destruct (Qltb ub lb) eqn:E2; [|reflexivity].
    apply Qltb_lt in E2. lra.
  - now destruct (Qltb ub x).
Qed.

(** What a visit leaves in a column that has bounds: every observed value
    clamped to them. *)
Lemma capped_values_clamp vals (lb ub : Q) :
  iqr_bounds vals = (Some lb, Some ub) ->
  capped_values vals = map (option_map (clamp lb ub)) vals.
Proof.
  intros Hb.
  destruct (iqr_bounds_cases vals) as [Hn|(lb' & ub' & Hb' & Hle)];
    [congruence|].
  rewrite Hb in Hb'. injection Hb' as <- <-.
  unfold capped_values. rewrite Hb.
  destruct (Nat.eqb (length (filter _ vals)) 0) eqn:E; cbn [negb].
  - symmetry. rewrite <- (map_id vals) at 2. apply map_ext_in.
    intros [x|] Hx; [|reflexivity]. cbn [option_map]. f_equal.
    apply filter_nil_length with (a := Some x) in E; [|assumption].
    apply is_outlier_exact in E.
    destruct (clamp_cases lb ub x Hle) as [[H _]|[[H _]|[_ H]]];
      [lra | lra | exact H].
  - rewrite cap_map. apply map_ext. intros v. now apply cap_cell_clamp.
Qed.

Lemma clamp_monotone (lb ub x y : Q) :
  lb <= ub -> x <= y -> clamp lb ub x <= clamp lb ub y.
Proof.
  intros Hle Hxy.
  destruct (clamp_cases lb ub x Hle) as [[Hx ->]|[[Hx ->]|[Hx ->]]];
    destruct (clamp_cases lb ub y Hle) as [[Hy ->]|[[Hy ->]|[Hy ->]]]; lra.
Qed.

Lemma changed_outlier (lb ub : Q) (v : option Q) :
  lb <= ub -> changed lb ub v = is_outlier (Some lb) (Some ub) v.
Proof.
  intros Hle. destruct v as [x|]; [|now rewrite is_outlier_missing].
  unfold changed.
  destruct (is_outlier (Some lb) (Some ub) (Some x)) eqn:Eo.
  - apply negb_true_iff.
    destruct (Qeq_bool (clamp lb ub x) x) eqn:Eq; [|reflexivity].
    apply Qeq_bool_eq in Eq.
    assert (Hin : lb <= x <= ub).
    { destruct (clamp_cases lb ub x Hle) as [[H E]|[[H E]|[H _]]];
        [rewrite E in Eq; lra | rewrite E in Eq; lra | exact H]. }
    apply is_outlier_exact in Hin. congruence.
  - apply is_outlier_exact in Eo. apply negb_false_iff, Qeq_eq_bool.
    destruct (clamp_cases lb ub x Hle) as [[H _]|[[H _]|[_ ->]]];
      [lra | lra | reflexivity].
Qed.


(** X8: in exact arithmetic, capping never reorders the values of a
    column: if one observed value is at most another before the pass, the
    same holds of the two cells after it. *)
Theorem handle_outliers_keeps_order (df : DataFrame Q) (cols : list string)
  (method c : string) vals (i j : nat) (x y : Q) :
  NoDup cols -> In c cols -> get_column df c = Some (NumCol vals) ->
  nth_error vals i = Some (Some x) -> nth_error vals j = Some (Some y) ->
  x <= y ->
  exists vals1 x1 y1,
    get_column (fst (handle_outliers df cols method)) c = Some (NumCol vals1) /\
    nth_error vals1 i = Some (Some x1) /\
    nth_error vals1 j = Some (Some y1) /\
    x1 <= y1.
Proof.
  intros Hnd Hin E Hi Hj Hxy.
  rewrite (handle_outliers_get_selected df cols method c vals Hnd Hin E).
  destruct (iqr_bounds_cases vals) as [Hn|(lb & ub & Hb & Hle)].
  - (* no bounds: nothing is an outlier *)
    exists vals, x, y. repeat split; try assumption. f_equal. f_equal.
    unfold capped_values. rewrite Hn.
    assert (H0 : forall l : list (option Q),
               filter (is_outlier None None) l = []).
    { induction l as [|[v|] rest IH]; simpl; auto. }
    now rewrite H0.
  - rewrite (capped_values_clamp vals lb ub Hb).
    exists (map (option_map (clamp lb ub)) vals), (clamp lb ub x), (clamp lb ub y).
    split; [reflexivity|].
    rewrite !nth_error_map, Hi, Hj. repeat split.
    now apply clamp_monotone.
Qed.

(** X9: in exact arithmetic, the count that a visit of a column logs is
    the number of cells whose value the visit changes: the visit appends
    "No outliers detected" exactly when winsorizing moves no cell, and
    otherwise "Found n outlier(s)" with n the number of cells moved,
    followed by the line giving the bounds. *)
Theorem handle_outliers_logs_changes (df : DataFrame Q) (msgs : list string)
  (method col : string) vals (lb ub : Q) :
  get_column df col = Some (NumCol vals) ->
  iqr_bounds vals = (Some lb, Some ub) ->
  let n := length (filter (changed lb ub) vals) in
  snd (handle_outliers_col method (df, msgs) col)
  = msgs ++
    (if Nat.eqb n 0
     then [("No outliers detected in '" ++ col ++ "' using " ++ method
            ++ ".")%string]
     else [("Found " ++ str_nat n ++ " outlier(s) in '" ++ col ++ "' using "
            ++ method ++ ".")%string;
           ("Capped outliers in '" ++ col ++ "' at lower:" ++ fmt2f lb
            ++ " and upper:" ++ fmt2f ub ++ ".")%string]).
Proof.
  intros E Hb n.
  destruct (iqr_bounds_cases vals) as [Hn|(lb' & ub' & Hb' & Hle)];
    [congruence|].
  rewrite Hb in Hb'. injection Hb' as <- <-.
  assert (Hf : filter (changed lb ub) vals
               = filter (is_outlier (Some lb) (Some ub)) vals).
  { apply filter_ext. intros v. now apply changed_outlier. }
  subst n. rewrite Hf.
  rewrite (handle_outliers_col_numeric method df msgs col vals E).
  cbn [snd]. f_equal. unfold outlier_messages. rewrite Hb.
  now destruct (Nat.eqb (length (filter _ vals)) 0).
Qed.

End Winsorize.


Lemma handle_outliers_keeps_order_witness :
  NoDup ["x"] /\
  (4 # 1 <= 100 # 1)%Q /\
  exists vals1 x1 y1,
    get_column (fst (handle_outliers one_outlier ["x"] "IQR")) "x"
    = Some (NumCol vals1) /\
    nth_error vals1 4 = Some (Some x1) /\
    nth_error vals1 5 = Some (Some y1) /\
    (x1 <= y1)%Q.
Proof.
  split; [solve_nodup|]. split; [unfold Qle; simpl; lia|].
  apply (handle_outliers_keeps_order one_outlier ["x"] "IQR" "x"
           [qz 1; qz 2; None; qz 3; qz 4; qz 100] 4 5 (4 # 1) (100 # 1)).
  - solve_nodup.
  - simpl; tauto.
  - reflexivity.
  - reflexivity.
  - reflexivity.
  - unfold Qle; simpl; lia.
Defined.

Lemma handle_outliers_logs_changes_witness :
  get_column one_outlier "x"
  = Some (NumCol [qz 1; qz 2; None; qz 3; qz 4; qz 100]) /\
  length (filter (changed (-1 # 1) (7 # 1))
            [qz 1; qz 2; None; qz 3; qz 4; qz 100]) = 1 /\
  snd (handle_outliers_col "IQR" (one_outlier, []) "x")
  = ["Found 1 outlier(s) in 'x' using IQR.";
     "Capped outliers in 'x' at lower:-1.00 and upper:7.00."].
Proof.
  split; [reflexivity|]. split; [reflexivity|].
  exact (handle_outliers_logs_changes one_outlier [] "IQR" "x"
           [qz 1; qz 2; None; qz 3; qz 4; qz 100] (-1 # 1) (7 # 1)
           eq_refl eq_refl).
Defined.

(* ================================================================== *)
(** ** Rule validation: when it raises *)

Section RulesRaise.
Context {R : Type} {NumR : Num R}.
Implicit Types (df : DataFrame R).

Lemma obj_lt_scalar_text (cells : list (obj R)) (k : R) (s : string) :
  In (OStr s) cells -> obj_lt_scalar cells k = Raise TypeError.
Proof.
  induction cells as [|c rest IH]; cbn [obj_lt_scalar In]; [tauto|].
  intros [->|Hin]; [reflexivity|].
  rewrite (IH Hin). now destruct c.
Qed.

Lemma obj_lt_scalar_raise (cells : list (obj R)) (k : R) (e : exn) :
  obj_lt_scalar cells k = Raise e ->
  e = TypeError /\ exists s, In (OStr s) cells.
Proof.
  induction cells as [|c rest IH]; cbn [obj_lt_scalar]; [discriminate|].
  destruct c as [s|x|]; cbn [bind].
  - intros [= <-]. split; [reflexivity|]. exists s. now left.
  - destruct (obj_lt_scalar rest k) as [bs|e'] eqn:E; cbn [bind];
      [discriminate|].
    intros [= <-]. destruct (IH eq_refl) as (-> & s & Hs).
    split; [reflexivity|]. exists s. now right.
  - destruct (obj_lt_scalar rest k) as [bs|e'] eqn:E; cbn [bind];
      [discriminate|].
    intros [= <-]. destruct (IH eq_refl) as (-> & s & Hs).
    split; [reflexivity|]. exists s. now right.
Qed.

(** X10: [apply_rules] raises exactly when the table has both columns and
    the [Age] column is an object column holding a text cell; the
    exception is then TypeError.  In every other case it returns. *)
Theorem apply_rules_raises_iff df (e : exn) :
  apply_rules df = Raise e <->
  e = TypeError /\
  has_column df "Employment_Status" = true /\
  exists cells s, get_column df "Age" = Some (ObjCol cells) /\ In (OStr s) cells.
Proof.
  unfold apply_rules, getitem. split.
  - destruct (has_column df "Age") eqn:Ha; cbn [andb]; [|discriminate].
    destruct (has_column df "Employment_Status") eqn:Hs; [|discriminate].
    apply has_column_true in Ha. destruct Ha as (age & ->).
    apply has_column_true in Hs. destruct Hs as (status & ->).
    cbn [bind].
    destruct (lt_scalar age (of_nat 18)) as [m|e'] eqn:Elt; cbn [bind].
    + destruct (index_where _ _); discriminate.
    + intros [= <-]. destruct age as [vals|cells]; [discriminate|].
      destruct (obj_lt_scalar_raise cells _ _ Elt) as (-> & s & Hs).
      split; [reflexivity|]. split; [reflexivity|]. eauto.
  - intros (-> & Hs & cells & s & Ea & Hin).
    replace (has_column df "Age") with true
      by (symmetry; apply has_column_true; eauto).
    rewrite Hs, Ea. cbn [andb bind lt_scalar].
    now rewrite (obj_lt_scalar_text cells _ s Hin).
Qed.

End RulesRaise.

(* ================================================================== *)
(** ** Estimation: the records and the exceptions *)

Section EstimatesRecords.
Context {R : Type} {NumR : Num R}.
Implicit Types (df : DataFrame R) (summary : list (string * (R * R))).

Lemma dict_set_new (col : string) (r : R * R) summary :
  ~ In col (map fst summary) -> dict_set col r summary = summary ++ [(col, r)].
Proof.
  induction summary as [|[k v] rest IH]; simpl; intros H; [reflexivity|].
  destruct (String.eqb_spec col k) as [->|Hne]; [exfalso; apply H; now left|].
  f_equal. apply IH. tauto.
Qed.

Lemma estimates_loop_ok df (w : string) (cols : list string) :
  forall summary final,
  NoDup cols -> (forall c, In c cols -> ~ In c (map fst summary)) ->
  estimates_loop df w cols summary = Ok final ->
  exists added,
    final = summary ++ added /\
    map fst added
    = filter (fun col => negb (String.eqb col w) && has_valid_data df w col)
        cols /\
    Forall (entry_ok df w) added.
Proof.
  induction cols as [|col rest IH]; intros summary final Hnd Hnew Hloop.
  - cbn in Hloop. injection Hloop as <-. exists []. rewrite app_nil_r.
    repeat split. constructor.
  - inversion Hnd as [|? ? Hnotin Hnd']; subst.
    cbn [estimates_loop filter] in *. unfold has_valid_data at 1.
    destruct (String.eqb_spec col w) as [->|Hcw]; cbn [negb andb] in *.
    + apply IH; [assumption | intros; apply Hnew; now right | assumption].
    + destruct (valid_data df col w) as [valid|] eqn:Ev;
        lazy beta iota zeta delta [bind] in Hloop; [|discriminate].
      destruct valid as [|p valid'];
        lazy beta iota zeta delta [bind] in Hloop.
      * apply IH; [assumption | intros; apply Hnew; now right | assumption].
      * destruct (np_average (map fst (p :: valid')) (map snd (p :: valid')))
          as [wm|] eqn:Ea; [|discriminate].
        rewrite dict_set_new in Hloop by (apply Hnew; now left).
        assert (Hnew' : forall c, In c rest ->
                  ~ In c (map fst (summary ++
                            [(col, (mean (map fst (p :: valid')), wm))]))).
        { intros c Hc. rewrite map_app, in_app_iff. simpl.
          intros [H|[H|[]]]; [now apply (Hnew c (or_intror Hc))|].
          subst c. contradiction. }
        destruct (IH _ _ Hnd' Hnew' Hloop) as (added & -> & Hk & Hf).
        eexists ((col, (_, wm)) :: added). rewrite <- app_assoc.
        split; [reflexivity|]. split; [simpl; now f_equal|].
        constructor; [|assumption].
        exists (p :: valid'). repeat split; try assumption. discriminate.
Qed.

Lemma valid_data_without_weight df (w col : string) :
  get_column df w = None -> valid_data df col w = Raise KeyError.
Proof.
  intros Hw. unfold valid_data. cbn [getitem_list].
  destruct (get_column df col); [|reflexivity]. now rewrite Hw.
Qed.

Lemma NoDup_select_numeric (cols : list (string * column R)) :
  NoDup (map fst cols) -> NoDup (select_numeric cols).
Proof.
  unfold select_numeric. induction cols as [|[n c] rest IH]; simpl; intros H.
  - constructor.
  - inversion H as [|? ? Hnotin Hnd]; subst.
    destruct (is_numeric_dtype c); simpl; [|now apply IH].
    constructor; [|now apply IH].
    intros Hin. apply Hnotin. apply in_map_iff in Hin.
    destruct Hin as (x & <- & Hx). apply filter_In in Hx.
    apply in_map. tauto.
Qed.

(** X11: when [calculate_estimates] returns on a table with distinct
    column names, the estimate table has exactly one record for each
    numeric column, other than the weight column, that has a row where
    both its value and the weight are present; the records come in the
    order of the table's columns; each holds the mean of the values of
    those rows and their average weighted by the weights of those rows. *)
Theorem calculate_estimates_records df (weight_column : string)
  (estimates : list (Estimate R)) (log : string) :
  NoDup (column_names df) ->
  calculate_estimates df weight_column = Ok (estimates, log) ->
  map Variable_name estimates
  = filter (fun col => negb (String.eqb col weight_column)
                       && has_valid_data df weight_column col)
      (select_numeric (columns df))
  /\
  forall e, In e estimates ->
    exists valid,
      valid_data df (Variable_name e) weight_column = Ok valid /\
      valid <> [] /\
      Unweighted_Mean e = mean (map fst valid) /\
      np_average (map fst valid) (map snd valid) = Ok (Weighted_Mean e).
Proof.
  intros Hnd. unfold calculate_estimates.
  destruct (has_column df weight_column) eqn:Hw; cbn [negb].
  - destruct (estimates_loop df weight_column (select_numeric (columns df)) [])
      as [summary|] eqn:Eloop; cbn [bind]; [|discriminate].
    destruct (estimates_loop_ok df weight_column _ [] summary
                (NoDup_select_numeric _ Hnd) (fun c _ H => H)
                Eloop) as (added & -> & Hk & Hf).
    cbn [app] in *. rewrite <- Hk.
    destruct added as [|kv added'] eqn:Eadded.
    + intros [= <- _]. split; [reflexivity | intros e []].
    + rewrite <- Eadded in *. intros [= <- _]. split.
      * now rewrite map_map.
      * intros e He. apply in_map_iff in He. destruct He as (kv' & <- & Hin).
        rewrite Forall_forall in Hf. exact (Hf kv' Hin).
  - intros [= <- _]. apply has_column_false in Hw. split; [|intros e []].
    symmetry. induction (select_numeric (columns df)) as [|c l IH];
      [reflexivity|].
    cbn [filter]. unfold has_valid_data at 1.
    rewrite (valid_data_without_weight df weight_column c Hw).
    now rewrite andb_false_r.
Qed.

(** With a float64 weight column, the rows [dropna] keeps carry numbers
    as weights. *)
Lemma valid_data_weights df (w col : string) (wvals : list (option R))
  (valid : list (R * obj R)) :
  get_column df w = Some (NumCol wvals) ->
  valid_data df col w = Ok valid ->
  forall p, In p valid -> exists x, snd p = ONum x /\ In (Some x) wvals.
Proof.
  intros Hw. unfold valid_data. cbn [getitem_list].
  destruct (get_column df col) as [c|]; cbn [bind]; [|discriminate].
  rewrite Hw. cbn [bind].
  destruct c as [vals|vals]; [|intros [= <-] p []].
  intros [= <-] p Hp. unfold dropna_pairs in Hp. apply in_flat_map in Hp.
  destruct Hp as ([v o] & Hin & Hp). apply in_combine_r in Hin.
  simpl in Hin. apply in_map_iff in Hin. destruct Hin as ([x|] & <- & Hx);
    destruct v as [y|]; simpl in Hp; try contradiction.
  destruct Hp as [<-|[]]. exists x. now split.
Qed.

Lemma obj_to_floats_numbers (valid : list (R * obj R)) :
  (forall p, In p valid -> exists x, snd p = ONum x) ->
  obj_to_floats (map snd valid) = Ok (weights_of valid).
Proof.
  induction valid as [|p valid IH]; intros H; [reflexivity|].
  destruct (H p (or_introl eq_refl)) as (x & Ex).
  cbn [map obj_to_floats weights_of flat_map]. rewrite Ex.
  fold (weights_of valid). rewrite IH by (intros q Hq; apply H; now right).
  reflexivity.
Qed.

(** [np.average] with numeric weights: ZeroDivisionError when they sum to
    zero, the quotient otherwise. *)
Lemma np_average_numbers (valid : list (R * obj R)) :
  (forall p, In p valid -> exists x, snd p = ONum x) ->
  np_average (map fst valid) (map snd valid)
  = if neqb (nsum (weights_of valid)) (of_nat 0) then Raise ZeroDivisionError
    else Ok (ndiv (nsum (map (fun p => nmul (fst p) (snd p))
                           (combine (map fst valid) (weights_of valid))))
               (nsum (weights_of valid))).
Proof.
  intros H. unfold np_average. now rewrite (obj_to_floats_numbers valid H).
Qed.

Lemma valid_data_present df (w col : string) :
  has_column df col = true -> has_column df w = true ->
  exists valid, valid_data df col w = Ok valid.
Proof.
  intros Hc Hw. apply has_column_true in Hc. apply has_column_true in Hw.
  destruct Hc as (c & Ec). destruct Hw as (wc & Ew).
  unfold valid_data. cbn [getitem_list]. rewrite Ec, Ew. cbn [bind].
  destruct c; eauto.
Qed.

Lemma estimates_loop_raises df (w : string) (wvals : list (option R)) (e : exn) :
  get_column df w = Some (NumCol wvals) ->
  forall (cols : list string) summary,
  (forall c, In c cols -> has_column df c = true) ->
  (estimates_loop df w cols summary = Raise e <->
   e = ZeroDivisionError /\
   exists col, In col cols /\ col <> w /\ zero_sum df w col).
Proof.
  intros Hw. induction cols as [|col rest IH]; intros summary Hcols.
  - cbn. split; [discriminate | intros (_ & c & [] & _)].
  - assert (Hrest : forall c, In c rest -> has_column df c = true)
      by (intros; apply Hcols; now right).
    cbn [estimates_loop].
    destruct (String.eqb_spec col w) as [->|Hcw]; cbn [negb].
    + rewrite (IH summary Hrest). split; intros (He & c & Hc & Hne & Hz).
      * split; [exact He|]. exists c. split; [now right | now split].
      * split; [exact He|]. exists c. destruct Hc as [<-|Hc]; [contradiction|].
        now repeat split.
    + destruct (valid_data_present df w col) as (valid & Ev).
      { apply Hcols. now left. }
      { apply has_column_true. eauto. }
      rewrite Ev. cbn [bind].
      pose proof (valid_data_weights df w col wvals valid Hw Ev) as Hnum.
      assert (Hnum' : forall p, In p valid -> exists x, snd p = ONum x).
      { intros p Hp. destruct (Hnum p Hp) as (x & Ex & _). eauto. }
      destruct valid as [|p valid'] eqn:Evalid.
      * rewrite (IH summary Hrest). split; intros (He & c & Hc & Hne & Hz).
        -- split; [exact He|]. exists c. split; [now right | now split].
        -- split; [exact He|]. exists c. destruct Hc as [<-|Hc].
           ++ destruct Hz as (v & Ev' & Hv & _). congruence.
           ++ now repeat split.
      * rewrite <- Evalid in *. rewrite (np_average_numbers valid Hnum').
        destruct (neqb (nsum (weights_of valid)) (of_nat 0)) eqn:Ez; cbn [bind].
        -- split.
           ++ intros [= <-]. split; [reflexivity|]. exists col.
              split; [now left|]. split; [assumption|].
              exists valid. repeat split; try assumption.
              rewrite Evalid. discriminate.
           ++ now intros (-> & _).
        -- rewrite IH by assumption.
           split; intros (He & c & Hc & Hne & Hz).
           ++ split; [exact He|]. exists c. split; [now right | now split].
           ++ split; [exact He|]. exists c. destruct Hc as [<-|Hc].
              ** destruct Hz as (v & Ev' & _ & Hz). rewrite Ev in Ev'.
                 injection Ev' as <-. congruence.
              ** now repeat split.
Qed.

Lemma select_numeric_present df (c : string) :
  In c (select_numeric (columns df)) -> has_column df c = true.
Proof.
  unfold select_numeric. intros H. apply in_map_iff in H.
  destruct H as (x & <- & Hx). apply filter_In in Hx.
  apply has_column_in. apply in_map. tauto.
Qed.

(** X12: with a float64 weight column, [calculate_estimates] raises
    exactly when some numeric column other than the weight column has
    rows where both its value and the weight are present and the weights
    of those rows sum to zero; the exception is ZeroDivisionError. *)
Theorem calculate_estimates_raises_iff df (weight_column : string)
  (wvals : list (option R)) (e : exn) :
  get_column df weight_column = Some (NumCol wvals) ->
  (calculate_estimates df weight_column = Raise e <->
   e = ZeroDivisionError /\
   exists col valid,
     In col (select_numeric (columns df)) /\ col <> weight_column /\
     valid_data df col weight_column = Ok valid /\ valid <> [] /\
     neqb (nsum (weights_of valid)) (of_nat 0) = true).
Proof.
  intros Hw. unfold calculate_estimates.
  replace (has_column df weight_column) with true
    by (symmetry; apply has_column_true; eauto).
  cbn [negb].
  pose proof (estimates_loop_raises df weight_column wvals e Hw
                (select_numeric (columns df)) []
                (select_numeric_present df)) as Hloop.
  destruct (estimates_loop df weight_column (select_numeric (columns df)) [])
    as [summary|e'] eqn:Eloop; cbn [bind].
  - split.
    + destruct summary; discriminate.
    + intros (He & col & valid & Hc & Hne & Hz).
      assert (H : @Ok (list (string * (R * R))) summary = Raise e).
      { apply Hloop. split; [exact He|]. exists col.
        split; [exact Hc|]. split; [exact Hne|]. now exists valid. }
      discriminate.
  - split.
    + intros [= <-]. destruct (proj1 Hloop eq_refl)
        as (He & col & Hc & Hne & valid & Hz).
      split; [exact He|]. now exists col, valid.
    + intros (He & col & valid & Hc & Hne & Hz). f_equal.
      assert (H : @Raise (list (string * (R * R))) e' = Raise e).
      { apply Hloop. split; [exact He|]. exists col.
        split; [exact Hc|]. split; [exact Hne|]. now exists valid. }
      now injection H.
Qed.

End EstimatesRecords.

Lemma calculate_estimates_records_witness :
  NoDup (column_names survey) /\
  calculate_estimates survey "Design_Weight"
  = Ok ([mkEstimate "Age" (27 # 1)%Q (53 # 2)%Q],
        "Calculated weighted and unweighted means using 'Design_Weight'.") /\
  map Variable_name [mkEstimate "Age" (27 # 1)%Q (53 # 2)%Q]
  = filter (fun col => negb (String.eqb col "Design_Weight")
                       && has_valid_data survey "Design_Weight" col)
      (select_numeric (columns survey)) /\
  valid_data survey "Age" "Design_Weight"
  = Ok [(inject_Z 16, ONum (inject_Z 1)); (inject_Z 25, ONum (inject_Z 2));
        (inject_Z 40, ONum (inject_Z 1))].
Proof.
  split; [solve_nodup|]. split; [reflexivity|]. split; [|reflexivity].
  apply (calculate_estimates_records survey "Design_Weight"
           [mkEstimate "Age" (27 # 1)%Q (53 # 2)%Q]
           "Calculated weighted and unweighted means using 'Design_Weight'.").
  - solve_nodup.
  - reflexivity.
Defined.

Lemma calculate_estimates_raises_iff_witness :
  get_column cancelling_weights "w" = Some (NumCol [qz 1; qz (-1)]) /\
  valid_data cancelling_weights "v" "w"
  = Ok [(inject_Z 1, ONum (inject_Z 1)); (inject_Z 2, ONum (inject_Z (-1)))] /\
  calculate_estimates cancelling_weights "w" = Raise ZeroDivisionError.
Proof.
  split; [reflexivity|]. split; [reflexivity|].
  apply (proj2 (calculate_estimates_raises_iff cancelling_weights "w"
                  [qz 1; qz (-1)] ZeroDivisionError eq_refl)).
  split; [reflexivity|].
  exists "v", [(inject_Z 1, ONum (inject_Z 1)); (inject_Z 2, ONum (inject_Z (-1)))].
  split; [simpl; tauto|]. split; [discriminate|]. split; [reflexivity|].
  split; [discriminate | reflexivity].
Defined.

(* ================================================================== *)
(** ** Estimation with positive weights *)

Section PositiveWeights.
Local Open Scope Q_scope.
Implicit Types (df : DataFrame Q) (valid : list (Q * obj Q)).







End PositiveWeights.


(* ================================================================== *)
(** ** Numeric columns through the stages, and the handler *)

Section Dtypes.
Context {R : Type} {NumR : Num R}.
Variable knn : nat -> list (list (option R)) -> result (list (list (option R))).
Implicit Types (df : DataFrame R) (vals : list (option R)).

Lemma assign_columns_numeric (names : list string) :
  forall (block : list (list (option R))) df (c : string) vals,
  get_column df c = Some (NumCol vals) ->
  exists vals', get_column (assign_columns df names block) c
                = Some (NumCol vals').
Proof.
  induction names as [|n names IH]; intros block df c vals E; cbn; [eauto|].
  destruct block as [|v block]; [eauto|].
  destruct (String.eqb_spec c n) as [->|Hne].
  - apply (IH block _ n v). apply get_set_column_same.
  - apply (IH block _ c vals). now rewrite get_set_column_other.
Qed.

Lemma impute_keeps_numeric df (cols : list string) (method c : string) vals
  df' (log : string) :
  get_column df c = Some (NumCol vals) ->
  impute_missing_values knn df cols method = Ok (df', log) ->
  exists vals', get_column df' c = Some (NumCol vals').
Proof.
  intros E. unfold impute_missing_values.
  destruct (getitem_list df cols) as [sel|]; cbn [bind]; [|discriminate].
  destruct (select_numeric sel) as [|c0 rest].
  { intros [= <- _]. eauto. }
  destruct (fit_transform _ _ _) as [block|]; cbn [bind]; [|discriminate].
  unfold setitem_block.
  destruct (negb _); [discriminate|]. destruct (negb _); [discriminate|].
  cbn [bind]. intros [= <- _].
  exact (assign_columns_numeric (c0 :: rest) block df c vals E).
Qed.

Lemma handle_outliers_keeps_numeric df (cols : list string) (method c : string)
  vals :
  get_column df c = Some (NumCol vals) ->
  exists vals', get_column (fst (handle_outliers df cols method)) c
                = Some (NumCol vals').
Proof.
  intros E. unfold handle_outliers.
  destruct (handle_outliers_fold_missing method (filter (has_column df) cols)
              df [] c vals E) as (vals' & E' & _).
  destruct (fold_left _ _ _) as [df1 msgs1]. simpl in *. eauto.
Qed.

Lemma index_where_no_text (labels : list nat) (m : list bool) vals :
  index_where labels (mask_and m (map (fun _ : option R => false) vals)) = [].
Proof.
  apply index_where_nil. intros i _. unfold mask_and.
  rewrite nth_error_map, nth_error_combine, nth_error_map.
  destruct (nth_error m i); [|discriminate].
  destruct (nth_error vals i); [|discriminate].
  simpl. rewrite andb_false_r. discriminate.
Qed.

Lemma apply_rules_keeps_numeric df (c : string) vals df' (log : string) :
  get_column df c = Some (NumCol vals) ->
  apply_rules df = Ok (df', log) ->
  get_column df' c = Some (NumCol vals).
Proof.
  intros E. unfold apply_rules, getitem.
  destruct (has_column df "Age" && has_column df "Employment_Status");
    [|now intros [= <- _]].
  destruct (get_column df "Age") as [age|]; cbn [bind]; [|discriminate].
  destruct (lt_scalar age (of_nat 18)) as [m|]; cbn [bind]; [|discriminate].
  destruct (get_column df "Employment_Status") as [status|] eqn:Es; cbn [bind];
    [|discriminate].
  destruct (index_where _ _) as [|l ls] eqn:Ei; [now intros [= <- _]|].
  intros [= <- _]. unfold loc_set_str.
  destruct (String.eqb_spec c "Employment_Status") as [->|Hne].
  - rewrite Es in E. injection E as ->. cbn [eq_scalar_str] in Ei.
    rewrite (index_where_no_text (index df) m vals) in Ei. discriminate.
  - now rewrite get_set_column_other.
Qed.

(** X14: a numeric column stays numeric through the cleaning stages:
    after imputation (with any method, when it returns), after outlier
    capping, and after validation, which leaves it as it is. *)
Theorem stages_keep_numeric df (cols : list string) (method c : string) vals :
  get_column df c = Some (NumCol vals) ->
  (forall df' log,
     impute_missing_values knn df cols method = Ok (df', log) ->
     exists vals', get_column df' c = Some (NumCol vals')) /\
  (exists vals',
     get_column (fst (handle_outliers df cols method)) c = Some (NumCol vals')) /\
  (forall df' log,
     apply_rules df = Ok (df', log) ->
     get_column df' c = Some (NumCol vals)).
Proof.
  intros E. split; [|split].
  - intros df' log H. exact (impute_keeps_numeric df cols method c vals df' log E H).
  - exact (handle_outliers_keeps_numeric df cols method c vals E).
  - intros df' log H. exact (apply_rules_keeps_numeric df c vals df' log E H).
Qed.

(** X15: when the weight column is a numeric column of the uploaded
    table, as the sidebar offers, and the handler returns, the weight
    column is a numeric column of the final table, and the estimation
    never logs that the weight column was not found: either the estimate
    table is empty and its log says that there are no valid columns, or
    it is not and the log names the weight column. *)
Theorem run_analysis_finds_weight (df_raw : DataFrame R)
  (imputation_cols : list string) (imputation_method : string)
  (outlier_cols : list string) (weight_column : string)
  (wvals : list (option R)) (st : SessionState) :
  get_column df_raw weight_column = Some (NumCol wvals) ->
  run_analysis knn df_raw imputation_cols imputation_method outlier_cols
    weight_column = Ok st ->
  (exists vals, get_column (df_final st) weight_column = Some (NumCol vals)) /\
  exists log1 log2 log3 log4,
    logs st = [log1; log2; log3; log4] /\
    ((df_estimates st = [] /\
      log4 = "No valid numeric columns to generate estimates for.") \/
     (df_estimates st <> [] /\
      log4 = ("Calculated weighted and unweighted means using '"
              ++ weight_column ++ "'.")%string)).
Proof.
  intros Hw. unfold run_analysis.
  destruct (impute_missing_values knn df_raw imputation_cols imputation_method)
    as [[df1 l1]|] eqn:E1; cbn [bind]; [|discriminate].
  destruct (impute_keeps_numeric _ _ _ _ _ _ _ Hw E1) as (v1 & H1).
  destruct (handle_outliers_keeps_numeric df1 outlier_cols "IQR" _ _ H1)
    as (v2 & H2).
  destruct (handle_outliers df1 outlier_cols "IQR") as [df2 l2].
  cbn [fst] in H2.
  destruct (apply_rules df2) as [[df3 l3]|] eqn:E3; cbn [bind]; [|discriminate].
  pose proof (apply_rules_keeps_numeric _ _ _ _ _ H2 E3) as H3.
  unfold calculate_estimates.
  replace (has_column df3 weight_column) with true
    by (symmetry; apply has_column_true; eauto).
  cbn [negb].
  destruct (estimates_loop df3 weight_column _ []) as [summary|]; cbn [bind];
    [|discriminate].
  destruct summary as [|kv summary']; cbn [bind]; intros [= <-];
    cbn [df_final df_estimates logs app].
  - split; [eauto|]. eexists _, _, _, _. split; [reflexivity|]. now left.
  - split; [eauto|]. eexists _, _, _, _. split; [reflexivity|]. right.
    split; [discriminate | reflexivity].
Qed.

End Dtypes.

Lemma stages_keep_numeric_witness :
  get_column survey "Design_Weight" = Some (NumCol [qz 1; qz 2; qz 1; qz 1]) /\
  (exists vals',
     get_column (fst (handle_outliers survey ["Design_Weight"] "IQR"))
       "Design_Weight" = Some (NumCol vals')) /\
  (forall df' log,
     apply_rules survey = Ok (df', log) ->
     get_column df' "Design_Weight" = Some (NumCol [qz 1; qz 2; qz 1; qz 1])) /\
  forall knn df' log,
    impute_missing_values knn survey ["Design_Weight"] "KNN" = Ok (df', log) ->
    exists vals', get_column df' "Design_Weight" = Some (NumCol vals').
Proof.
  split; [reflexivity|].
  pose (knn0 := fun (_ : nat) (_ : list (list (option Q))) =>
                  @Raise (list (list (option Q))) ValueError).
  split; [|split].
  - apply (stages_keep_numeric knn0 survey ["Design_Weight"] "IQR"
             "Design_Weight" [qz 1; qz 2; qz 1; qz 1] eq_refl).
  - apply (stages_keep_numeric knn0 survey ["Design_Weight"] "IQR"
             "Design_Weight" [qz 1; qz 2; qz 1; qz 1] eq_refl).
  - intros knn.
    apply (stages_keep_numeric knn survey ["Design_Weight"] "KNN"
             "Design_Weight" [qz 1; qz 2; qz 1; qz 1] eq_refl).
Defined.

Lemma run_analysis_finds_weight_witness :
  get_column survey "Design_Weight" = Some (NumCol [qz 1; qz 2; qz 1; qz 1]) /\
  forall knn, exists st,
    run_analysis knn survey ["Age"] "Median" ["Age"] "Design_Weight" = Ok st /\
    (exists vals, get_column (df_final st) "Design_Weight" = Some (NumCol vals)) /\
    exists log1 log2 log3 log4,
      logs st = [log1; log2; log3; log4] /\
      ((df_estimates st = [] /\
        log4 = "No valid numeric columns to generate estimates for.") \/
       (df_estimates st <> [] /\
        log4 = "Calculated weighted and unweighted means using 'Design_Weight'.")).
Proof.
  split; [reflexivity|]. intros knn. eexists. split; [reflexivity|].
  eapply (run_analysis_finds_weight knn survey ["Age"] "Median" ["Age"]
            "Design_Weight" [qz 1; qz 2; qz 1; qz 1] _ eq_refl).
  reflexivity.
Defined.

(* ================================================================== *)
(** ** The handler: how it can fail *)

Section HandlerFailures.
Context {R : Type} {NumR : Num R}.
Variable knn : nat -> list (list (option R)) -> result (list (list (option R))).
Implicit Types (df : DataFrame R).

Lemma impute_raises_value_error df (cols : list string) (method : string)
  (s : strategy) (e : exn) :
  (forall c, In c cols -> has_column df c = true) ->
  strategy_of method = Some s ->
  impute_missing_values knn df cols method = Raise e -> e = ValueError.
Proof.
  intros Hall Hm. unfold impute_missing_values.
  destruct (getitem_list_present df cols) as (sel & ->).
  { intros n Hn. now apply has_column_true, Hall. }
  cbn [bind]. destruct (select_numeric sel) as [|c0 rest]; [discriminate|].
  set (imp := if String.eqb method "Mean" then SimpleImputer strategy_mean
              else if String.eqb method "KNN" then KNNImputer 5
              else SimpleImputer strategy_median).
  assert (Himp : imp = SimpleImputer s).
  { subst imp. unfold strategy_of in Hm.
    destruct (String.eqb method "Mean"); [congruence|].
    destruct (String.eqb method "KNN"); congruence. }
  rewrite Himp. cbn [fit_transform]. unfold simple_fit_transform.
  destruct (Nat.eqb _ 0); cbn [bind]; [now intros [= <-]|].
  unfold setitem_block. destruct (negb _); [now intros [= <-]|].
  destruct (negb _); [now intros [= <-] | discriminate].
Qed.

Lemma apply_rules_raises_type_error df (e : exn) :
  apply_rules df = Raise e -> e = TypeError.
Proof.
  unfold apply_rules, getitem.
  destruct (has_column df "Age") eqn:Ha; cbn [andb]; [|discriminate].
  destruct (has_column df "Employment_Status") eqn:Hs; [|discriminate].
  apply has_column_true in Ha. destruct Ha as (age & ->).
  apply has_column_true in Hs. destruct Hs as (status & ->).
  cbn [bind].
  destruct (lt_scalar age (of_nat 18)) as [m|e'] eqn:Elt; cbn [bind].
  - destruct (index_where _ _); discriminate.
  - intros [= <-]. destruct age as [vals|cells]; [discriminate|].
    now destruct (obj_lt_scalar_raise cells _ _ Elt).
Qed.

Lemma calculate_estimates_raises_zero_division df (w : string)
  (wvals : list (option R)) (e : exn) :
  get_column df w = Some (NumCol wvals) ->
  calculate_estimates df w = Raise e -> e = ZeroDivisionError.
Proof.
  intros Hw. unfold calculate_estimates.
  replace (has_column df w) with true
    by (symmetry; apply has_column_true; eauto).
  cbn [negb].
  destruct (estimates_loop df w (select_numeric (columns df)) [])
    as [summary|e'] eqn:Eloop; cbn [bind].
  - destruct summary; discriminate.
  - intros [= <-].
    now destruct (proj1 (estimates_loop_raises df w wvals e' Hw _ []
                           (select_numeric_present df)) Eloop).
Qed.

(** X16: with a configuration as the sidebar builds it (the imputation
    selection made of columns of the uploaded table, a method other than
    KNN, a weight column that is a numeric column of the uploaded table),
    the handler never raises KeyError: when it raises, either imputation
    raised ValueError, or imputation returned and validation of the capped
    table raised TypeError, or both returned and estimation raised
    ZeroDivisionError. *)
Theorem run_analysis_failures (df_raw : DataFrame R)
  (imputation_cols : list string) (imputation_method : string)
  (outlier_cols : list string) (weight_column : string)
  (wvals : list (option R)) (s : strategy) (e : exn) :
  (forall c, In c imputation_cols -> has_column df_raw c = true) ->
  strategy_of imputation_method = Some s ->
  get_column df_raw weight_column = Some (NumCol wvals) ->
  run_analysis knn df_raw imputation_cols imputation_method outlier_cols
    weight_column = Raise e ->
  (e = ValueError /\
   impute_missing_values knn df_raw imputation_cols imputation_method
   = Raise ValueError)
  \/
  (e = TypeError /\
   exists df_imputed log1,
     impute_missing_values knn df_raw imputation_cols imputation_method
     = Ok (df_imputed, log1) /\
     apply_rules (fst (handle_outliers df_imputed outlier_cols "IQR"))
     = Raise TypeError)
  \/
  (e = ZeroDivisionError /\
   exists df_imputed log1 df_validated log3,
     impute_missing_values knn df_raw imputation_cols imputation_method
     = Ok (df_imputed, log1) /\
     apply_rules (fst (handle_outliers df_imputed outlier_cols "IQR"))
     = Ok (df_validated, log3) /\
     calculate_estimates df_validated weight_column = Raise ZeroDivisionError).
Proof.
  intros Hcols Hm Hw. unfold run_analysis.
  destruct (impute_missing_values knn df_raw imputation_cols imputation_method)
    as [[df1 l1]|e1] eqn:E1; cbn [bind].
  2:{ intros [= <-]. left.
      pose proof (impute_raises_value_error _ _ _ s _ Hcols Hm E1) as ->.
      now split. }
  destruct (impute_keeps_numeric knn _ _ _ _ _ _ _ Hw E1) as (v1 & H1).
  destruct (handle_outliers_keeps_numeric df1 outlier_cols "IQR" _ _ H1)
    as (v2 & H2).
  destruct (handle_outliers df1 outlier_cols "IQR") as [df2 l2] eqn:E2.
  cbn [fst] in *.
  destruct (apply_rules df2) as [[df3 l3]|e3] eqn:E3; cbn [bind].
  2:{ intros [= <-]. right; left.
      pose proof (apply_rules_raises_type_error _ _ E3) as ->.
      split; [reflexivity|]. exists df1, l1. split; [reflexivity | now rewrite E2]. }
  pose proof (apply_rules_keeps_numeric _ _ _ _ _ H2 E3) as H3.
  destruct (calculate_estimates df3 weight_column) as [[est l4]|e4] eqn:E4;
    cbn [bind]; [discriminate|].
  intros [= <-]. right; right.
  pose proof (calculate_estimates_raises_zero_division _ _ _ _ H3 E4) as ->.
  split; [reflexivity|]. exists df1, l1, df3, l3.
  split; [reflexivity|]. split; [now rewrite E2 | exact E4].
Qed.

End HandlerFailures.

Lemma run_analysis_failures_witness :
  (forall c, In c ["v"] -> has_column cancelling_weights c = true) /\
  strategy_of "Mean" = Some strategy_mean /\
  get_column cancelling_weights "w" = Some (NumCol [qz 1; qz (-1)]) /\
  forall knn,
    run_analysis knn cancelling_weights ["v"] "Mean" [] "w"
    = Raise ZeroDivisionError /\
    ((ZeroDivisionError = ValueError /\
      impute_missing_values knn cancelling_weights ["v"] "Mean"
      = Raise ValueError)
     \/
     (ZeroDivisionError = TypeError /\
      exists df_imputed log1,
        impute_missing_values knn cancelling_weights ["v"] "Mean"
        = Ok (df_imputed, log1) /\
        apply_rules (fst (handle_outliers df_imputed [] "IQR"))
        = Raise TypeError)
     \/
     (ZeroDivisionError = ZeroDivisionError /\
      exists df_imputed log1 df_validated log3,
        impute_missing_values knn cancelling_weights ["v"] "Mean"
        = Ok (df_imputed, log1) /\
        apply_rules (fst (handle_outliers df_imputed [] "IQR"))
        = Ok (df_validated, log3) /\
        calculate_estimates df_validated "w" = Raise ZeroDivisionError)).
Proof.
  assert (Hc : forall c, In c ["v"] -> has_column cancelling_weights c = true).
  { intros c [<-|[]]. reflexivity. }
  split; [exact Hc|]. split; [reflexivity|]. split; [reflexivity|].
  intros knn. split; [reflexivity|].
  apply (run_analysis_failures knn cancelling_weights ["v"] "Mean" [] "w"
           [qz 1; qz (-1)] strategy_mean ZeroDivisionError Hc eq_refl eq_refl).
  reflexivity.
Defined.

(* ================================================================== *)
(** ** app.py: the default weight column *)

Lemma list_index_spec (x : string) (l : list string) :
  In x l ->
  exists i,
    list_index x l = Ok i /\
    nth_error l i = Some x /\
    forall j, j < i -> nth_error l j <> Some x.
Proof.
  induction l as [|y l IH]; cbn [In list_index]; [tauto|].
  intros H. destruct (String.eqb_spec y x) as [->|Hne].
  - exists 0. repeat split. intros j Hj. lia.
  - destruct IH as (i & -> & Hi & Hfirst); [destruct H; [contradiction | assumption]|].
    exists (S i). cbn [bind]. repeat split; [exact Hi|].
    intros [|j] Hj; cbn [nth_error]; [congruence | apply Hfirst; lia].
Qed.

(** X17: the default position of the weight selector is always computed
    (the lookup never raises); it is a position of the list of numeric
    columns whenever that list is not empty; it is the first position of
    "Design_Weight" when that name is a numeric column, and 0 otherwise. *)
Theorem default_weight_index_valid (numeric_columns : list string) :
  exists i,
    default_weight_index numeric_columns = Ok i /\
    (numeric_columns <> [] -> i < length numeric_columns) /\
    (In "Design_Weight" numeric_columns ->
     nth_error numeric_columns i = Some "Design_Weight" /\
     forall j, j < i -> nth_error numeric_columns j <> Some "Design_Weight") /\
    (~ In "Design_Weight" numeric_columns -> i = 0).
Proof.
  unfold default_weight_index.
  destruct (existsb (String.eqb "Design_Weight") numeric_columns) eqn:E.
  - apply existsb_eqb_in_str in E.
    destruct (list_index_spec "Design_Weight" numeric_columns E)
      as (i & Ei & Hn & Hfirst).
    exists i. split; [exact Ei|]. split; [|split].
    + intros _. apply nth_error_Some. congruence.
    + intros _. now split.
    + intros H. contradiction.
  - exists 0. split; [reflexivity|]. split; [|split].
    + destruct numeric_columns; [contradiction | simpl; lia].
    + intros H. apply existsb_eqb_in_str in H. congruence.
    + reflexivity.
Qed.

(* ================================================================== *)
(** ** Estimation: rescaling the weights *)

Section ScaleWeights.
Local Open Scope Q_scope.
Implicit Types (df : DataFrame Q) (valid : list (Q * obj Q)).













End ScaleWeights.

